(** * Scheduling assistant: availability, slot suggestion, event commit
      and tool orchestration

    A shallow embedding of [app/tools/mock_tools.py],
    [app/tools/google_tools.py], [app/main.py], [app/google_oauth.py]
    and [app/google_calendar.py].

    Time.  A Python [datetime] has microsecond resolution.  An instant is
    modelled as an integer count of microseconds ([Z]); a [timedelta] is
    an integer count of microseconds as well.  The representable range of
    [datetime] (years 1 to 9999) is not modelled.

    Text.  A Python [str] is modelled by its UTF-8 bytes ([string]).

    Zones.  [get_availability] compares datetimes of different zones and
    adds on their wall clocks, so its datetimes carry a zone.  In
    [create_event] all datetimes share one zone object and in
    [suggest_times] all timestamps are read on one clock, at one constant
    UTC offset: there a datetime is its reading on that clock.

    Outside world.  The model client, the three tools as seen from
    [chat], [json.loads], [json.dumps] and the system prompt are
    parameters; text that [isoparse] or [int] rejects is an absent
    ([None]) argument. *)

From Stdlib Require Import ZArith List String Ascii Bool Lia Permutation Sorted.
From Equations Require Import Equations.
Import ListNotations.
Open Scope Z_scope.

(** ** Units of [timedelta] *)

Module Units.
Definition SECOND : Z := 1000000.
Definition MINUTE : Z := 60 * SECOND.
Definition HOUR : Z := 60 * MINUTE.
Definition DAY : Z := 24 * HOUR.
Definition WEEK : Z := 7 * DAY.
End Units.
Import Units.

(** ** [app/tools/mock_tools.py] *)

Module mock_tools.

(** A segment is the Python tuple [(start, end)] of two datetimes. *)
Definition segment : Type := (Z * Z)%type.

(** [iso dt = dt.replace(microsecond=0).isoformat()]: the text keeps the
    instant down to whole seconds; reading it back with [isoparse]
    yields the truncated instant. *)
Definition iso (dt : Z) : Z := dt - dt mod SECOND.

(** [clamp_to_window]. *)
Definition clamp_to_window (start end_ wstart wend : Z) : option segment :=
  let s := Z.max start wstart in
  let e := Z.min end_ wend in
  if s <? e then Some (s, e) else None.

(** Body of the innermost loop of [suggest_times]: what one segment
    [(xs, xe)] contributes to [nxt] under the obstacle [(bs, be)]. *)
Definition cut (b x : segment) : list segment :=
  let '(bs, be) := b in
  let '(xs, xe) := x in
  if (xe <=? bs) || (be <=? xs) then [(xs, xe)]
  else (if xs <? bs then [(xs, bs)] else [])
         ++ (if be <? xe then [(be, xe)] else []).

(** [for (xs, xe) in segments: ...; segments = nxt]. *)
Definition cut_all (b : segment) (segments : list segment) : list segment :=
  flat_map (cut b) segments.

(** [for (bs, be) in busy: ...], started from [segments]. *)
Definition subtract_from (segments : list segment) (busy : list segment)
  : list segment :=
  fold_left (fun segs b => cut_all b segs) busy segments.

(** [segments = [(s, e)]] followed by the loop over [busy]. *)
Definition subtract (f : segment) (busy : list segment) : list segment :=
  subtract_from [f] busy.

(** *** Wall-clock fields

    [suggest_times] reads and replaces the hour and minute of the window
    start.  Instants are counted from a local midnight that falls on a
    Thursday (1970-01-01), so [t mod DAY] is the time of day and
    [t / DAY] the day number. *)

(** [dt.replace(hour=h, minute=m, second=0, microsecond=0)];
    [None] stands for the [ValueError] of an hour or minute out of range. *)
Definition replace_hms0 (dt h m : Z) : option Z :=
  if (0 <=? h) && (h <=? 23) && (0 <=? m) && (m <=? 59)
  then Some (dt - dt mod DAY + h * HOUR + m * MINUTE)
  else None.

(** [dt.replace(hour=h, minute=m)]: second and microsecond are kept. *)
Definition replace_hm (dt h m : Z) : option Z :=
  if (0 <=? h) && (h <=? 23) && (0 <=? m) && (m <=? 59)
  then Some (dt - dt mod DAY + h * HOUR + m * MINUTE + dt mod MINUTE)
  else None.

(** [dt.strftime("%a")], in the C locale. *)
Definition weekday_names : list string :=
  ["Mon"; "Tue"; "Wed"; "Thu"; "Fri"; "Sat"; "Sun"]%string.

Definition strftime_a (dt : Z) : string :=
  nth (Z.to_nat ((dt / DAY + 3) mod 7)) weekday_names EmptyString.

(** [not days or d0.strftime("%a") in days]. *)
Definition day_allowed (days : list string) (d0 : Z) : bool :=
  match days with
  | [] => true
  | _ => existsb (String.eqb (strftime_a d0)) days
  end.

(** The block one iteration of the day loop appends to [free_blocks]
    (none, or one), given [day_end]. *)
Definition day_block (wstart wend : Z) (days : list string)
           (day_start day_end : Z) : list segment :=
  if day_start <? day_end then
    match clamp_to_window day_start day_end wstart wend with
    | Some (d0, d1) =>
        if day_allowed days d0 then [(iso d0, iso d1)] else []
    | None => []
    end
  else [].

(** Keeps the equation of a matched value in scope. *)
Definition inspect {A : Type} (a : A) : {b : A | a = b} :=
  exist _ a eq_refl.

(** [while day_cursor < wend: ...], from [day_cursor] on.  [None] is the
    [ValueError] raised by a [replace] inside the loop. *)
Equations? free_blocks_from (wstart wend hs hm he hem : Z)
           (days : list string) (day_cursor : Z)
  : option (list segment)
  by wf (Z.to_nat (wend / DAY - day_cursor / DAY + 1)) lt :=
  free_blocks_from wstart wend hs hm he hem days day_cursor
    with Z_lt_dec day_cursor wend := {
    | right _ => Some [];
    | left _ with replace_hm day_cursor he hem := {
      | None => None;
      | Some day_end
          with inspect (replace_hm (day_cursor + DAY) hs hm) := {
        | exist _ None _ => None;
        | exist _ (Some next) _ =>
            option_map
              (app (day_block wstart wend days day_cursor day_end))
              (free_blocks_from wstart wend hs hm he hem days next) } } }.
Proof.
  unfold replace_hm in e.
  destruct ((0 <=? hs) && (hs <=? 23) && (0 <=? hm) && (hm <=? 59)) eqn:E;
    [|discriminate].
  injection e as e.
  repeat rewrite andb_true_iff in E. repeat rewrite Z.leb_le in E.
  assert (HD : 0 < DAY) by reflexivity.
  pose proof (Z.mod_pos_bound (day_cursor + DAY) MINUTE ltac:(reflexivity)).
  assert (day_cursor / DAY <= wend / DAY)
    by (apply Z.div_le_mono; [exact HD | apply Z.lt_le_incl; assumption]).
  assert (day_cursor / DAY + 1 <= next / DAY).
  { apply Z.div_le_lower_bound; [exact HD|].
    assert (Hq : (day_cursor + DAY) / DAY = day_cursor / DAY + 1).
    { replace (day_cursor + DAY) with (day_cursor + 1 * DAY) by ring.
      apply Z.div_add. intro; discriminate. }
    subst next.
    rewrite (Z.mod_eq (day_cursor + DAY) DAY), Hq by (intro; discriminate).
    unfold HOUR, MINUTE in *. lia. }
  lia.
Qed.

(** The number under [duration_minutes]: an [int], of any sign, or a
    [float], given by the microseconds that [timedelta(minutes=x)] rounds
    it to. *)
Inductive minutes : Type :=
| IntMinutes (n : Z)
| FloatMinutes (microseconds : Z).

(** [timedelta(minutes=x)], in microseconds. *)
Definition timedelta_minutes (x : minutes) : Z :=
  match x with
  | IntMinutes n => n * MINUTE
  | FloatMinutes microseconds => microseconds
  end.

(** The arguments of [suggest_times] once read: timestamps by
    [isoparse], the hours by [map(int, h.split(":"))]. *)
Record params : Type := {
  window_start : Z;                 (* availability_blocks.window_start *)
  window_end : Z;                   (* availability_blocks.window_end *)
  busy : list segment;              (* availability_blocks.busy *)
  duration_minutes : option minutes;  (* default 30 *)
  hours : option ((Z * Z) * (Z * Z)); (* preferences.hours, "H:M" read *)
  days : list string                (* preferences.days *)
}.

(** [duration], line 32. *)
Definition duration_of (p : params) : Z :=
  match duration_minutes p with
  | Some x => timedelta_minutes x
  | None => 30 * MINUTE
  end.

Definition hours_of (p : params) : (Z * Z) * (Z * Z) :=
  match hours p with Some h => h | None => ((13, 0), (17, 0)) end.

(** [free_blocks] after the day loop. *)
Definition free_blocks (p : params) : option (list segment) :=
  let '((hs, hm), (he, hem)) := hours_of p in
  match replace_hms0 (window_start p) hs hm with
  | None => None
  | Some day_cursor =>
      free_blocks_from (window_start p) (window_end p) hs hm he hem
                       (days p) day_cursor
  end.

(** The segments left of every free block once [busy] is subtracted,
    in the order the loop visits them. *)
Definition free_segments (busy : list segment) (blocks : list segment)
  : list segment :=
  flat_map (fun block => subtract block busy) blocks.

(** [refined]: the segments that are long enough, written with [iso]. *)
Definition refine (duration : Z) (segments : list segment) : list segment :=
  map (fun x => (iso (fst x), iso (snd x)))
      (filter (fun x => duration <=? snd x - fst x) segments).

(** [for block in refined: ...], with [proposals] collected so far. *)
Fixpoint propose (duration : Z) (refined proposals : list segment)
  : list segment :=
  match refined with
  | [] => proposals
  | block :: rest =>
      let start_dt := fst block in
      let end_dt := start_dt + duration in
      let proposals :=
        if end_dt <=? snd block
        then proposals ++ [(iso start_dt, iso end_dt)]
        else proposals in
      if (3 <=? Z.of_nat (List.length proposals)) then proposals
      else propose duration rest proposals
  end.

(** What [suggest_times] returns: the candidates and the window.
    [None] is the [ValueError] of a [replace]; the [OverflowError] of a
    date outside the years 1 to 9999 is not modelled, so that the code
    may raise it where the model returns. *)
Record suggestion : Type := {
  candidates : list segment;
  out_window_start : Z;
  out_window_end : Z
}.

Definition suggest_times (p : params) : option suggestion :=
  match free_blocks p with
  | None => None
  | Some blocks =>
      let duration := duration_of p in
      let refined := refine duration (free_segments (busy p) blocks) in
      Some {| candidates := propose duration refined [];
              out_window_start := iso (window_start p);
              out_window_end := iso (window_end p) |}
  end.

End mock_tools.

(** ** [app/tools/google_tools.py] *)

Module google_tools.

(** A [tzinfo]: the UTC offset it gives to a wall-clock reading.  Python
    rejects offsets that are not strictly between -24h and +24h. *)
Record tzinfo : Type := {
  utcoffset : Z -> Z;
  utcoffset_range : forall w, - DAY < utcoffset w < DAY
}.

(** An aware [datetime]: a wall-clock reading and its zone. *)
Record datetime : Type := { wall : Z; zone : tzinfo }.

(** What [isoparse] returns: a reading, with a zone when the text has
    an offset. *)
Record parsed : Type := { reading : Z; offset : option tzinfo }.

(** The point on the UTC time line; aware datetimes of different zones
    are compared by it. *)
Definition instant (d : datetime) : Z :=
  wall d - utcoffset (zone d) (wall d).

(** [d + timedelta(days=n)]: arithmetic on the wall clock. *)
Definition plus_days (d : datetime) (n : Z) : datetime :=
  {| wall := wall d + n * DAY; zone := zone d |}.

(** [if d.tzinfo is None: d = d.replace(tzinfo=tz)]. *)
Definition with_zone (tz : tzinfo) (d : parsed) : datetime :=
  match offset d with
  | Some z => {| wall := reading d; zone := z |}
  | None => {| wall := reading d; zone := tz |}
  end.

(** [while we <= now_utc: ws += timedelta(days=7); we += timedelta(days=7)].
    [now_utc] is given as a point on the UTC time line. *)
Equations? roll_window (now_utc : Z) (ws we : datetime)
  : datetime * datetime
  by wf (Z.to_nat ((now_utc + DAY - wall we) / WEEK + 1)) lt :=
  roll_window now_utc ws we with Z_le_dec (instant we) now_utc := {
    | left _ => roll_window now_utc (plus_days ws 7) (plus_days we 7);
    | right _ => (ws, we) }.
Proof.
  unfold instant in l.
  pose proof (utcoffset_range (zone we) (wall we)).
  change 604800000000 with WEEK.
  replace (now_utc + DAY - (wall we + WEEK))
    with (now_utc + DAY - wall we + (-1) * WEEK) by ring.
  rewrite Z.div_add by (intro; discriminate).
  assert (0 <= (now_utc + DAY - wall we) / WEEK)
    by (apply Z.div_pos; [lia | reflexivity]).
  lia.
Qed.

(** The window [get_availability] queries and returns; [None] is the
    [ValueError] of a boundary that [isoparse] rejects. *)
Definition get_availability (tz : tzinfo) (now_utc : Z)
           (window_start window_end : option parsed)
  : option (datetime * datetime) :=
  match window_start, window_end with
  | Some ws, Some we =>
      Some (roll_window now_utc (with_zone tz ws) (with_zone tz we))
  | _, _ => None
  end.

(** [create_event], lines 130-137: the roll forward of a past slot.
    [start_dt], [end_dt] and [now_local] carry the same zone object
    [tz], so Python compares, subtracts and adds on the wall clock of
    [tz]; the three are given as readings of that clock. *)
Definition roll_forward (start_dt end_dt now_local : Z) : Z * Z :=
  if end_dt <=? now_local then
    let delta_days := (now_local - end_dt) / DAY in
    let weeks := delta_days / 7 + 1 in
    let jump := (7 * weeks) * DAY in
    (start_dt + jump, end_dt + jump)
  else (start_dt, end_dt).

(** The interval [create_event] commits; [None] is
    [ValueError("end_time must be after start_time.")]. *)
Definition create_event (start_dt end_dt now_local : Z) : option (Z * Z) :=
  let '(start_dt, end_dt) := roll_forward start_dt end_dt now_local in
  if end_dt <=? start_dt then None else Some (start_dt, end_dt).

End google_tools.

(** ** JSON values and the [json] library *)

Module json.

(** A decoded JSON value.  A number keeps its text; an object is a
    Python [dict]: keys are unique and kept in insertion order. *)
#[warnings="-register-all"]
Inductive value : Type :=
| JNull
| JBool (b : bool)
| JNumber (lexeme : string)
| JString (s : string)
| JArray (items : list value)
| JObject (members : list (string * value)).

Definition dict : Type := list (string * value).

(** [k in d]. *)
Fixpoint contains (k : string) (d : dict) : bool :=
  match d with
  | [] => false
  | (k', _) :: rest => String.eqb k k' || contains k rest
  end.

(** [d.get(k)]. *)
Fixpoint get (k : string) (d : dict) : option value :=
  match d with
  | [] => None
  | (k', v) :: rest => if String.eqb k k' then Some v else get k rest
  end.

(** [d[k] = v]. *)
Fixpoint set (k : string) (v : value) (d : dict) : dict :=
  match d with
  | [] => [(k, v)]
  | (k', v') :: rest =>
      if String.eqb k k' then (k', v) :: rest else (k', v') :: set k v rest
  end.

(** [d.setdefault(k, v)]: the dict afterwards. *)
Definition setdefault (k : string) (v : value) (d : dict) : dict :=
  if contains k d then d else set k v d.

(** What [json.loads] does with a text: it returns a value, raises
    [JSONDecodeError], or raises another exception ([RecursionError] on
    deeply nested text, [ValueError] on an integer of too many digits). *)
Inductive decoded : Type :=
| Decoded (obj : value)
| JSONDecodeError
| OtherError (e : string).

(** *** A sample decoder

    [json.loads] belongs to Python's library: the orchestration code and
    the theorems about every reply are parametric in it.  [loads] below
    serves to run the code on the replies of the examples.  It reads the
    JSON grammar, without [\u] escapes and without the literals [NaN]
    and [Infinity] that Python adds, and raises nothing but
    [JSONDecodeError]. *)

Definition quote : ascii := "034"%char.
Definition backslash : ascii := "092"%char.

Definition is_ws (c : ascii) : bool :=
  let n := nat_of_ascii c in
  Nat.eqb n 32 || Nat.eqb n 9 || Nat.eqb n 10 || Nat.eqb n 13.

Fixpoint skip_ws (s : string) : string :=
  match s with
  | String c r => if is_ws c then skip_ws r else s
  | EmptyString => s
  end.

Definition unescape (c : ascii) : option ascii :=
  if Ascii.eqb c quote then Some quote
  else if Ascii.eqb c backslash then Some backslash
  else if Ascii.eqb c "/" then Some "/"%char
  else if Ascii.eqb c "b" then Some "008"%char
  else if Ascii.eqb c "f" then Some "012"%char
  else if Ascii.eqb c "n" then Some "010"%char
  else if Ascii.eqb c "r" then Some "013"%char
  else if Ascii.eqb c "t" then Some "009"%char
  else None.

(** The characters of a string literal after its opening quote, and
    the text after its closing quote. *)
Fixpoint string_body (s : string) : option (string * string) :=
  match s with
  | EmptyString => None
  | String c r =>
      if Ascii.eqb c quote then Some (EmptyString, r)
      else if Ascii.eqb c backslash then
        match r with
        | String e r' =>
            match unescape e, string_body r' with
            | Some c', Some (body, rest) => Some (String c' body, rest)
            | _, _ => None
            end
        | EmptyString => None
        end
      else if Nat.ltb (nat_of_ascii c) 32 then None
      else
        match string_body r with
        | Some (body, rest) => Some (String c body, rest)
        | None => None
        end
  end.

Definition is_digit (c : ascii) : bool :=
  let n := nat_of_ascii c in Nat.leb 48 n && Nat.leb n 57.

Fixpoint digits (s : string) : string * string :=
  match s with
  | String c r =>
      if is_digit c then let '(d, rest) := digits r in (String c d, rest)
      else (EmptyString, s)
  | EmptyString => (EmptyString, s)
  end.

(** [-? int frac? exp?], with no leading zero in [int]. *)
Definition number (s : string) : option (string * string) :=
  let '(sign, s1) :=
    match s with
    | String "-" r => ("-"%string, r)
    | _ => (EmptyString, s)
    end in
  let '(int, s2) := digits s1 in
  match int with
  | EmptyString => None
  | String "0" (String _ _) => None
  | _ =>
      let '(frac, s3) :=
        match s2 with
        | String "." r =>
            let '(d, rest) := digits r in (String "." d, rest)
        | _ => (EmptyString, s2)
        end in
      if String.eqb frac "." then None else
      let after_e (r : string) :=
        let '(sg, r1) :=
          match r with
          | String "+" r' => ("+"%string, r')
          | String "-" r' => ("-"%string, r')
          | _ => (EmptyString, r)
          end in
        let '(d, rest) := digits r1 in
        match d with
        | EmptyString => None
        | _ => Some ((sg ++ d)%string, rest)
        end in
      match s3 with
      | String "e" r | String "E" r =>
          match after_e r with
          | Some (ex, rest) =>
              Some ((sign ++ int ++ frac ++ "e" ++ ex)%string, rest)
          | None => None
          end
      | _ => Some ((sign ++ int ++ frac)%string, s3)
      end
  end.

Definition literal (word : string) (v : value) (s : string)
  : option (value * string) :=
  if String.prefix word s
  then Some (v, String.substring (String.length word)
                                 (String.length s - String.length word) s)
  else None.

Fixpoint parse_value (fuel : nat) (s : string) {struct fuel}
  : option (value * string) :=
  match fuel with
  | O => None
  | S fuel =>
      match skip_ws s with
      | String "{" r =>
          match skip_ws r with
          | String "}" r' => Some (JObject [], r')
          | r' =>
              match parse_members fuel r' [] with
              | Some (d, rest) => Some (JObject d, rest)
              | None => None
              end
          end
      | String "[" r =>
          match skip_ws r with
          | String "]" r' => Some (JArray [], r')
          | r' =>
              match parse_items fuel r' [] with
              | Some (l, rest) => Some (JArray l, rest)
              | None => None
              end
          end
      | String "t" _ as s' => literal "true" (JBool true) s'
      | String "f" _ as s' => literal "false" (JBool false) s'
      | String "n" _ as s' => literal "null" JNull s'
      | String c r as s' =>
          if Ascii.eqb c quote then
            match string_body r with
            | Some (body, rest) => Some (JString body, rest)
            | None => None
            end
          else
            match number s' with
            | Some (lexeme, rest) => Some (JNumber lexeme, rest)
            | None => None
            end
      | EmptyString => None
      end
  end
with parse_items (fuel : nat) (s : string) (acc : list value) {struct fuel}
  : option (list value * string) :=
  match fuel with
  | O => None
  | S fuel =>
      match parse_value fuel s with
      | Some (v, rest) =>
          match skip_ws rest with
          | String "," r => parse_items fuel r (acc ++ [v])
          | String "]" r => Some (acc ++ [v], r)
          | _ => None
          end
      | None => None
      end
  end
with parse_members (fuel : nat) (s : string) (acc : dict) {struct fuel}
  : option (dict * string) :=
  match fuel with
  | O => None
  | S fuel =>
      match skip_ws s with
      | String c r =>
          if Ascii.eqb c quote then
            match string_body r with
            | Some (key, rest) =>
                match skip_ws rest with
                | String ":" r1 =>
                    match parse_value fuel r1 with
                    | Some (v, rest1) =>
                        match skip_ws rest1 with
                        | String "," r2 =>
                            parse_members fuel r2 (set key v acc)
                        | String "}" r2 => Some (set key v acc, r2)
                        | _ => None
                        end
                    | None => None
                    end
                | _ => None
                end
            | None => None
            end
          else None
      | EmptyString => None
      end
  end.

Definition loads (text : string) : decoded :=
  match parse_value (S (String.length text)) text with
  | Some (v, rest) =>
      match skip_ws rest with
      | EmptyString => Decoded v
      | _ => JSONDecodeError
      end
  | None => JSONDecodeError
  end.

End json.

(** ** [app/main.py] *)

Module main.
Import json.

(** *** [str.strip]

    A [str] is modelled by its UTF-8 bytes.  [str.strip()] removes the
    characters for which [str.isspace] holds: U+0009 to U+000D, U+001C to
    U+0020, U+0085, U+00A0, U+1680, U+2000 to U+200A, U+2028, U+2029,
    U+202F, U+205F and U+3000. *)

(** The white space of one byte: U+0009 to U+000D and U+001C to U+0020. *)
Definition isspace (c : ascii) : bool :=
  let n := nat_of_ascii c in
  (Nat.leb 9 n && Nat.leb n 13) || (Nat.leb 28 n && Nat.leb n 32).

(** The white space of two bytes: U+0085 and U+00A0. *)
Definition isspace2 (a b : ascii) : bool :=
  Ascii.eqb a "194" && (Ascii.eqb b "133" || Ascii.eqb b "160").

(** The last byte of U+2000 to U+200A, U+2028, U+2029 and U+202F. *)
Definition general_punctuation_space (c : ascii) : bool :=
  let n := nat_of_ascii c in
  (Nat.leb 128 n && Nat.leb n 138)
  || Nat.eqb n 168 || Nat.eqb n 169 || Nat.eqb n 175.

(** The white space of three bytes: U+1680, U+2000 to U+200A, U+2028,
    U+2029, U+202F, U+205F and U+3000. *)
Definition isspace3 (a b c : ascii) : bool :=
  (Ascii.eqb a "225" && Ascii.eqb b "154" && Ascii.eqb c "128")
  || (Ascii.eqb a "226" && Ascii.eqb b "128" && general_punctuation_space c)
  || (Ascii.eqb a "226" && Ascii.eqb b "129" && Ascii.eqb c "159")
  || (Ascii.eqb a "227" && Ascii.eqb b "128" && Ascii.eqb c "128").

Fixpoint lstrip (s : string) : string :=
  match s with
  | String a r =>
      if isspace a then lstrip r
      else
        match r with
        | String b r2 =>
            if isspace2 a b then lstrip r2
            else
              match r2 with
              | String c r3 => if isspace3 a b c then lstrip r3 else s
              | EmptyString => s
              end
        | EmptyString => s
        end
  | EmptyString => s
  end.

(** Only white space: nothing is left once the leading white space is
    removed. *)
Definition blank (s : string) : bool :=
  match lstrip s with
  | EmptyString => true
  | String _ _ => false
  end.

(** The longest suffix that is only white space is dropped. *)
Fixpoint rstrip (s : string) : string :=
  match s with
  | String c r => if blank s then EmptyString else String c (rstrip r)
  | EmptyString => s
  end.

Definition strip (s : string) : string := rstrip (lstrip s).

(** [text.startswith("{")]. *)
Definition startswith_brace (text : string) : bool :=
  match text with
  | String "{" _ => true
  | _ => false
  end.

(** One message of the conversation: role and content. *)
Definition message : Type := (string * string)%type.

(** What leaves [chat] instead of a reply. *)
Inductive failure : Type :=
| LLMFailure (status_code : Z) (detail : string)
    (* the HTTPException of call_llm: 504 or 502 *)
| UnknownTool (name : value)        (* HTTPException 400 *)
| ToolError (name : value) (e : string)  (* HTTPException 500 *)
| KeyError
| AttributeError                    (* args has no setdefault *)
| TypeError                         (* unhashable tool name *)
| LoadsError (e : string).          (* json.loads: no JSONDecodeError *)

Inductive response : Type :=
| ChatOut (reply : string)
| Raised (e : failure).

(** The outbound calls of one request, in order. *)
Inductive call : Type :=
| LLMCall (messages : list message)
| ToolCall (name : string) (args : dict).

(** A tool: its result, or the text of the exception it raises. *)
Definition tool : Type := dict -> string + value.

Section Orchestration.

Variable json_loads : string -> decoded.
Variable json_dumps : value -> string.
Variable SYSTEM_PROMPT : string.
(** The model client: a reply, or the HTTPException it raises. *)
Variable call_llm : list message -> failure + string.
(** The three entries of [TOOL_REGISTRY]. *)
Variables get_availability suggest_times create_event : tool.

(** [maybe_parse_tool_call]: the dict, [None], or the exception that
    [except json.JSONDecodeError] lets through. *)
Definition maybe_parse_tool_call (text : string) : failure + option dict :=
  let text := strip text in
  if negb (startswith_brace text) then inr None
  else
    match json_loads text with
    | Decoded (JObject obj) =>
        if contains "tool" obj && contains "args" obj
        then inr (Some obj) else inr None
    | Decoded _ => inr None
    | JSONDecodeError => inr None
    | OtherError e => inl (LoadsError e)
    end.

Definition TOOL_REGISTRY : list (string * tool) :=
  [("get_availability"%string, get_availability);
   ("suggest_times"%string, suggest_times);
   ("create_event"%string, create_event)].

Fixpoint registry_get (name : string) (r : list (string * tool))
  : option tool :=
  match r with
  | [] => None
  | (k, f) :: rest =>
      if String.eqb name k then Some f else registry_get name rest
  end.

(** [final or "(no response)"]. *)
Definition or_no_response (final : string) : string :=
  match final with
  | EmptyString => "(no response)"%string
  | _ => final
  end.

(** Lines 116-127: run the tool, hand its result to the model. *)
Definition run_tool (messages : list message) (name : string)
           (func : tool) (args : dict) : response * list call :=
  match func args with
  | inl e => (Raised (ToolError (JString name) e),
              [LLMCall messages; ToolCall name args])
  | inr result =>
      let messages' :=
        messages ++
        [("assistant"%string,
          json_dumps
            (JObject [("tool_result"%string,
                       JObject [("name"%string, JString name);
                                ("result"%string, result)])]))] in
      match call_llm messages' with
      | inl e => (Raised e, [LLMCall messages; ToolCall name args;
                             LLMCall messages'])
      | inr final =>
          (ChatOut (or_no_response final),
           [LLMCall messages; ToolCall name args; LLMCall messages'])
      end
  end.

(** Lines 107-114: name and args of the call, the organizer's id, and
    the registry lookup. *)
Definition dispatch (messages : list message) (user_id : string)
           (tool_call : dict) : response * list call :=
  match get "tool" tool_call with
  | None => (Raised KeyError, [LLMCall messages])
  | Some name =>
      let args :=
        match get "args" tool_call with
        | Some a => a
        | None => JObject []
        end in
      match args with
      | JObject args =>
          let args := setdefault "organizer_user_id" (JString user_id) args in
          match name with
          | JString n =>
              match registry_get n TOOL_REGISTRY with
              | Some func => run_tool messages n func args
              | None => (Raised (UnknownTool name), [LLMCall messages])
              end
          | JArray _ | JObject _ => (Raised TypeError, [LLMCall messages])
          | _ => (Raised (UnknownTool name), [LLMCall messages])
          end
      | _ => (Raised AttributeError, [LLMCall messages])
      end
  end.

(** [chat]: the response and the outbound calls made on the way. *)
Definition chat (user_id message : string) : response * list call :=
  let messages :=
    [("system"%string, SYSTEM_PROMPT); ("user"%string, message)] in
  match call_llm messages with
  | inl e => (Raised e, [LLMCall messages])
  | inr first =>
      match maybe_parse_tool_call first with
      | inl e => (Raised e, [LLMCall messages])
      | inr None => (ChatOut first, [LLMCall messages])
      | inr (Some []) => (ChatOut first, [LLMCall messages])
      | inr (Some tool_call) => dispatch messages user_id tool_call
      end
  end.

End Orchestration.

(** A tool was called. *)
Definition dispatched (trace : list call) : Prop :=
  exists name args, In (ToolCall name args) trace.

End main.

(** ** [app/tools/google_tools.py]: attendees, title, participants *)

Module request.
Import json main.

(** ["@" in s]. *)
Fixpoint contains_at (s : string) : bool :=
  match s with
  | String c r => Ascii.eqb c "@" || contains_at r
  | EmptyString => false
  end.

(** [s.replace(a, b)] for single characters. *)
Fixpoint replace (a b : ascii) (s : string) : string :=
  match s with
  | String c r => String (if Ascii.eqb c a then b else c) (replace a b r)
  | EmptyString => EmptyString
  end.

(** [s.split(sep)] for a single character: never an empty list. *)
Fixpoint split (sep : ascii) (s : string) : list string :=
  match s with
  | String c r =>
      if Ascii.eqb c sep then EmptyString :: split sep r
      else
        match split sep r with
        | piece :: pieces => String c piece :: pieces
        | [] => [String c EmptyString]
        end
  | EmptyString => [EmptyString]
  end.

(** [raw.replace(";", ",").split(",")]. *)
Definition pieces (raw : string) : list string :=
  split "," (replace ";" "," raw).

Definition is_empty (s : string) : bool :=
  match s with
  | EmptyString => true
  | String _ _ => false
  end.

(** [add_email] on a string: [emails] afterwards. *)
Definition add_email (emails : list string) (s : string) : list string :=
  let s := strip s in
  if negb (is_empty s) && contains_at s then emails ++ [s] else emails.

(** [e not in seen] is false. *)
Definition seen_has (seen : list string) (e : string) : bool :=
  existsb (String.eqb e) seen.

(** The loop [for e in emails: if e not in seen: ...], with [seen] and
    [result] as they stand. *)
Fixpoint dedupe (emails seen result : list string) : list string :=
  match emails with
  | [] => result
  | e :: rest =>
      if seen_has seen e then dedupe rest seen result
      else dedupe rest (e :: seen) (result ++ [e])
  end.

Section Truth.

(** Whether Python reads the text of a JSON number as a number other
    than zero. *)
Variable nonzero : string -> bool.

(** [bool(v)]. *)
Definition truthy (v : value) : bool :=
  match v with
  | JNull => false
  | JBool b => b
  | JNumber lexeme => nonzero lexeme
  | JString s => negb (is_empty s)
  | JArray items => match items with [] => false | _ => true end
  | JObject members => match members with [] => false | _ => true end
  end.

(** [add_email(v)] for a value out of a dict: [(v or "").strip()] raises
    [AttributeError] ([None]) on a true value that is not a string. *)
Definition add_email_value (emails : list string) (v : value)
  : option (list string) :=
  match v with
  | JString s => Some (add_email emails s)
  | _ => if truthy v then None else Some emails
  end.

(** [d.get("email", "")]. *)
Definition email_field (d : dict) : value :=
  match get "email" d with
  | Some v => v
  | None => JString EmptyString
  end.

(** [for item in attendees_raw: ...]. *)
Fixpoint add_items (emails : list string) (items : list value)
  : option (list string) :=
  match items with
  | [] => Some emails
  | JString s :: rest => add_items (add_email emails s) rest
  | JObject d :: rest =>
      match add_email_value emails (email_field d) with
      | Some emails => add_items emails rest
      | None => None
      end
  | _ :: rest => add_items emails rest
  end.

(** [emails] before the duplicates are removed. *)
Definition collect (attendees_raw : value) : option (list string) :=
  match attendees_raw with
  | JString raw => Some (fold_left add_email (pieces raw) [])
  | JObject d => add_email_value [] (email_field d)
  | JArray items => add_items [] items
  | _ => Some []
  end.

Definition _normalize_attendees (attendees_raw : value)
  : option (list string) :=
  match collect attendees_raw with
  | Some emails => Some (dedupe emails [] [])
  | None => None
  end.

End Truth.

(** [create_event], line 104. *)
Definition fallback_title (attendee_emails : list string) : string :=
  match attendee_emails with
  | first :: _ => ("Meeting with " ++ first)%string
  | [] => "Meeting"%string
  end.

(** [create_event], line 105: [(params.get("title") or fallback).strip()],
    for a title that is a string or absent. *)
Definition event_title (title : option string) (attendee_emails : list string)
  : string :=
  strip match title with
        | Some (String _ _ as t) => t
        | _ => fallback_title attendee_emails
        end.

(** [get_availability], line 83: the emails of the participants read
    from a string. *)
Definition participants_of (raw : string) : list string :=
  map strip (filter (fun p => negb (is_empty (strip p))) (pieces raw)).

End request.

(** ** [app/google_oauth.py] *)

Module google_oauth.
Import json main request.

(** What [start] and [callback] return or raise. *)
Inductive outcome : Type :=
| Started (auth_url state : string)
| Connected (user_id : value)
| EnvMissing            (* HTTPException 500 of build_flow *)
| MissingState          (* HTTPException 400 *)
| UnknownState          (* HTTPException 400 *)
| OAuthError            (* HTTPException 400: no code *)
| FetchFailed           (* flow.fetch_token raised *)
| StoreAttributeError   (* store.get on a value that is no dict *)
| StoreTypeError        (* item access on a value that has none *)
| WriteFailed.          (* open(path, "w") raised *)

(** [p in s] for strings. *)
Fixpoint has_infix (p s : string) : bool :=
  String.prefix p s ||
  match s with
  | String _ r => has_infix p r
  | EmptyString => false
  end.

(** [d.pop(k, None)]: the dict afterwards. *)
Fixpoint remove (k : string) (d : dict) : dict :=
  match d with
  | [] => []
  | (k', v) :: rest =>
      if String.eqb k k' then remove k rest else (k', v) :: remove k rest
  end.

(** [os.path.join("tokens", user_id + ".json")] on a POSIX system: an
    absolute second part stands alone. *)
Definition token_path (user_id : string) : string :=
  match user_id with
  | String "/" _ => (user_id ++ ".json")%string
  | _ => ("tokens/" ++ user_id ++ ".json")%string
  end.

(** [STATE_FILE]. *)
Definition STATE_FILE : string := "tokens/state.json".

Section Flow.

(** [Credentials]. *)
Variable creds : Type.
(** Whether Python reads a number text as a number other than zero. *)
Variable nonzero : string -> bool.
(** [str(v)] for a value that is not a string. *)
Variable str_of : value -> string.
(** The three environment variables are set. *)
Variable configured : bool.
(** [flow.fetch_token(code)], [None] when it raises. *)
Variable fetch_token : string -> option creds.
(** The file that a path names: two paths may name one file. *)
Variable resolve : string -> string.
(** Whether [open(path, "w")] succeeds; a file that opens is written in
    full. *)
Variable can_write : string -> bool.
(** [creds.to_json()] as [json.load] reads it back. *)
Variable to_json : creds -> value.

(** What a file holds: a document written by [json.dump], credentials
    written by [save_creds], or anything that [json.load] rejects. *)
Inductive content : Type :=
| Document (data : value)
| Token (c : creds)
| Unreadable.

(** The files, most recently written first, under the name that
    [resolve] gives them. *)
Definition files : Type := list (string * content).

Fixpoint read (file : string) (fs : files) : option content :=
  match fs with
  | [] => None
  | (f, c) :: rest => if String.eqb file f then Some c else read file rest
  end.

(** What the file at a path holds, [None] when there is none. *)
Definition load (path : string) (fs : files) : option content :=
  read (resolve path) fs.

(** [open(path, "w")] followed by a write; [None] when [open] raises. *)
Definition write (path : string) (c : content) (fs : files)
  : option files :=
  if can_write path then Some ((resolve path, c) :: fs) else None.

Definition state_store_get (fs : files) : value :=
  match load STATE_FILE fs with
  | Some (Document data) => data
  | Some (Token c) => to_json c
  | Some Unreadable | None => JObject []
  end.

Definition state_store_set (data : value) (fs : files) : option files :=
  write STATE_FILE (Document data) fs.

(** [f"{user_id}"]. *)
Definition format (user_id : value) : string :=
  match user_id with
  | JString s => s
  | v => str_of v
  end.

Definition save_creds (user_id : value) (c : creds) (fs : files)
  : option files :=
  write (token_path (format user_id)) (Token c) fs.

(** [callback], lines 86-89: the user of a pending state. *)
Definition entry_user_id (entry : option value) : outcome + value :=
  match entry with
  | None => inl UnknownState
  | Some e =>
      if negb (truthy nonzero e) then inl UnknownState
      else
        match e with
        | JObject d =>
            match get "user_id" d with
            | Some user_id => inr user_id
            | None => inl UnknownState
            end
        | JArray items =>
            if existsb (fun item => match item with
                                    | JString s => String.eqb s "user_id"
                                    | _ => false
                                    end) items
            then inl StoreTypeError else inl UnknownState
        | JString s =>
            if has_infix "user_id" s then inl StoreTypeError
            else inl UnknownState
        | _ => inl StoreTypeError
        end
  end.

(** [start], with the url and the state that [flow.authorization_url]
    hands out. *)
Definition start (auth_url state user_id : string) (fs : files)
  : outcome * files :=
  if negb configured then (EnvMissing, fs)
  else
    match state_store_get fs with
    | JObject store =>
        let entry := JObject [("user_id"%string, JString user_id)] in
        match state_store_set (JObject (set state entry store)) fs with
        | Some fs => (Started auth_url state, fs)
        | None => (WriteFailed, fs)
        end
    | _ => (StoreTypeError, fs)
    end.

Definition callback (state code : option string) (fs : files)
  : outcome * files :=
  match state with
  | None | Some EmptyString => (MissingState, fs)
  | Some state =>
      match state_store_get fs with
      | JObject store =>
          match entry_user_id (get state store) with
          | inl e => (e, fs)
          | inr user_id =>
              if negb configured then (EnvMissing, fs)
              else
                match code with
                | None | Some EmptyString => (OAuthError, fs)
                | Some code =>
                    match fetch_token code with
                    | None => (FetchFailed, fs)
                    | Some c =>
                        match save_creds user_id c fs with
                        | None => (WriteFailed, fs)
                        | Some fs =>
                            let store := JObject (remove state store) in
                            match state_store_set store fs with
                            | None => (WriteFailed, fs)
                            | Some fs => (Connected user_id, fs)
                            end
                        end
                    end
                end
          end
      | _ => (StoreAttributeError, fs)
      end
  end.

End Flow.

End google_oauth.

(** ** [app/google_calendar.py]: the join link of a created event *)

Module google_calendar.
Import json main request.

Section JoinLink.

Variable nonzero : string -> bool.

(** [cd.get("entryPoints") or []] as the list the loop walks; [None]
    when the value is true but no list, so that the loop raises. *)
Definition entry_points (cd : dict) : option (list value) :=
  match get "entryPoints" cd with
  | None => Some []
  | Some v =>
      if truthy nonzero v
      then match v with JArray items => Some items | _ => None end
      else Some []
  end.

(** The loop of lines 76-80: the first true [uri], [JNull] for Python's
    [None]; the outer [None] when an entry point is no dict. *)
Fixpoint first_uri (items : list value) : option value :=
  match items with
  | [] => Some JNull
  | JObject ep :: rest =>
      match get "uri" ep with
      | Some uri => if truthy nonzero uri then Some uri else first_uri rest
      | None => first_uri rest
      end
  | _ :: _ => None
  end.

(** [d.get(k)] with [JNull] for [None]. *)
Definition get_or_none (k : string) (d : dict) : value :=
  match get k d with
  | Some v => v
  | None => JNull
  end.

(** Lines 73-82: [join_link]; [None] when the code raises. *)
Definition join_link (created : dict) : option value :=
  let cd := get_or_none "conferenceData" created in
  let from_entry_points :=
    if truthy nonzero cd then
      match cd with
      | JObject cd =>
          match entry_points cd with
          | Some items => first_uri items
          | None => None
          end
      | _ => None
      end
    else Some JNull in
  match from_entry_points with
  | Some link =>
      if truthy nonzero link then Some link
      else Some (get_or_none "hangoutLink" created)
  | None => None
  end.

End JoinLink.

End google_calendar.

(** * Vocabulary of the properties *)

Import mock_tools google_tools json main.

(** ** Segments as sets of instants *)

(** A segment [(s, e)] covers the instants [t] with [s <= t < e]. *)
Definition covers (x : segment) (t : Z) : Prop :=
  fst x <= t < snd x.

Definition covered_by (l : list segment) (t : Z) : Prop :=
  exists x, In x l /\ covers x t.

(** The disjointness test of the source: [xe <= bs or be <= xs]. *)
Definition apart (x b : segment) : Prop :=
  snd x <= fst b \/ snd b <= fst x.

(** A busy block whose end is not before its start. *)
Definition proper (b : segment) : Prop := fst b <= snd b.

(** [y] lies inside [x]: it starts no earlier and ends no later. *)
Definition inside (y x : segment) : Prop :=
  fst x <= fst y /\ snd y <= snd x.

(** [x] ends no later than [y] starts. *)
Definition precedes (x y : segment) : Prop := snd x <= fst y.

(** [x] does not end before it starts. *)
Definition forward (x : segment) : Prop := fst x <= snd x.

(** Both ends of [x] fall on whole seconds. *)
Definition whole (x : segment) : Prop :=
  fst x mod SECOND = 0 /\ snd x mod SECOND = 0.

(** What holds of every block the day loop appends from [day_cursor] on,
    for the window [wstart], [wend]. *)
Definition block_ok (wstart wend day_cursor : Z) (x : segment) : Prop :=
  DAY * (day_cursor / DAY) <= fst x /\ forward x /\ whole x /\
  iso wstart <= fst x /\ snd x <= iso wend.

(** The slot [suggest_times] anchors at a segment's start: start and end
    as [iso] writes them. *)
Definition slot_at (duration : Z) (x : segment) : segment :=
  (iso (fst x), iso (iso (fst x) + duration)).

(** The segments that can hold the requested duration: between their
    ends (line 77), and between their ends as [iso] writes them
    (line 85). *)
Definition long_enough (duration : Z) (segments : list segment)
  : list segment :=
  filter (fun x => (duration <=? snd x - fst x)
                   && (iso (fst x) + duration <=? iso (snd x)))
         segments.

(** Starts in non-decreasing order. *)
Definition chronological (l : list segment) : Prop :=
  StronglySorted (fun c c' => fst c <= fst c') l.

(** Monday 2025-10-06, 00:00, on the wall clock of the organizer. *)
Definition MONDAY : Z := 20367 * DAY.

(** The scenario of a week: window Monday 09:00 to Friday 18:00, default
    hours and duration, Tuesday busy from 13:00 to 15:00. *)
Definition week_request : params :=
  {| window_start := MONDAY + 9 * HOUR;
     window_end := MONDAY + 4 * DAY + 18 * HOUR;
     busy := [(MONDAY + DAY + 13 * HOUR, MONDAY + DAY + 15 * HOUR)];
     duration_minutes := None;
     hours := None;
     days := [] |}.

(** Monday afternoon with a busy block written backwards (16:00 to 14:00)
    followed by one from 14:30 to 15:00. *)
Definition backwards_request : params :=
  {| window_start := MONDAY + 13 * HOUR;
     window_end := MONDAY + 17 * HOUR;
     busy := [(MONDAY + 16 * HOUR, MONDAY + 14 * HOUR);
              (MONDAY + 14 * HOUR + 30 * MINUTE, MONDAY + 15 * HOUR)];
     duration_minutes := Some (IntMinutes 30);
     hours := None;
     days := [] |}.

(** Monday afternoon, free, for a meeting of 0.01 minutes: six tenths of
    a second. *)
Definition fraction_request : params :=
  {| window_start := MONDAY + 13 * HOUR;
     window_end := MONDAY + 17 * HOUR;
     busy := [];
     duration_minutes := Some (FloatMinutes 600000);
     hours := None;
     days := [] |}.

(** Monday afternoon, busy for the half second after 13:00. *)
Definition half_second_request : params :=
  {| window_start := MONDAY + 13 * HOUR;
     window_end := MONDAY + 17 * HOUR;
     busy := [(MONDAY + 13 * HOUR, MONDAY + 13 * HOUR + 500000)];
     duration_minutes := None;
     hours := None;
     days := [] |}.

(** Monday afternoon after a busy hour from 12:00 to 13:00, for a
    meeting of minus thirty minutes. *)
Definition negative_request : params :=
  {| window_start := MONDAY + 13 * HOUR;
     window_end := MONDAY + 17 * HOUR;
     busy := [(MONDAY + 12 * HOUR, MONDAY + 13 * HOUR)];
     duration_minutes := Some (IntMinutes (-30));
     hours := None;
     days := [] |}.

(** What [suggest_times] returns on [week_request]: Monday 13:00,
    Tuesday 15:00 and Wednesday 13:00, half an hour each. *)
Definition week_suggestion : suggestion :=
  {| candidates :=
       [(MONDAY + 13 * HOUR, MONDAY + 13 * HOUR + 30 * MINUTE);
        (MONDAY + DAY + 15 * HOUR, MONDAY + DAY + 15 * HOUR + 30 * MINUTE);
        (MONDAY + 2 * DAY + 13 * HOUR,
         MONDAY + 2 * DAY + 13 * HOUR + 30 * MINUTE)];
     out_window_start := MONDAY + 9 * HOUR;
     out_window_end := MONDAY + 4 * DAY + 18 * HOUR |}.

(** ** Rolling forward *)

(** [weeks = floor((now - end).days / 7) + 1]. *)
Definition weeks_to_jump (end_dt now_local : Z) : Z :=
  (now_local - end_dt) / DAY / 7 + 1.

(** What the loop of [get_availability] leaves at time [now_utc]: both
    boundaries moved by the same [k] weeks on their own wall clocks, the
    end after now, and [k] the first such. *)
Definition rolled (now_utc : Z) (ws we : datetime)
           (r : datetime * datetime) (k : Z) : Prop :=
  0 <= k /\
  wall (fst r) = wall ws + k * WEEK /\ zone (fst r) = zone ws /\
  wall (snd r) = wall we + k * WEEK /\ zone (snd r) = zone we /\
  now_utc < instant (snd r) /\
  (forall j, 0 <= j < k -> instant (plus_days we (7 * j)) <= now_utc).

(** A zone with daylight saving: UTC-4 between 2025-03-09 02:00 and
    2025-11-02 02:00 on the wall clock, UTC-5 otherwise. *)
Definition eastern_offset (w : Z) : Z :=
  if (20156 * DAY + 2 * HOUR <=? w) && (w <? 20394 * DAY + 2 * HOUR)
  then - 4 * HOUR else - 5 * HOUR.

Definition EASTERN : tzinfo :=
  {| utcoffset := eastern_offset;
     utcoffset_range := fun w =>
       match (20156 * DAY + 2 * HOUR <=? w) && (w <? 20394 * DAY + 2 * HOUR)
             as b
             return - DAY < (if b then - 4 * HOUR else - 5 * HOUR) < DAY
       with
       | true => conj eq_refl eq_refl
       | false => conj eq_refl eq_refl
       end |}.

(** Tuesday 2025-10-28, 13:00 to 17:00, written without an offset. *)
Definition october_start : parsed :=
  {| reading := 20389 * DAY + 13 * HOUR; offset := None |}.
Definition october_end : parsed :=
  {| reading := 20389 * DAY + 17 * HOUR; offset := None |}.

(** Wednesday 2025-11-05, 12:00 UTC. *)
Definition november_noon : Z := 20397 * DAY + 12 * HOUR.

(** ** Replies of the model *)

(** [s] between double quotes. *)
Definition quoted (s : string) : string :=
  String quote (s ++ String quote EmptyString).

(** [{"tool":"get_availability","args":{}}]. *)
Definition reply_call : string :=
  ("{" ++ quoted "tool" ++ ":" ++ quoted "get_availability" ++ ","
       ++ quoted "args" ++ ":{}}")%string.

(** [{"tool":"get_availability"}]. *)
Definition reply_without_args : string :=
  ("{" ++ quoted "tool" ++ ":" ++ quoted "get_availability" ++ "}")%string.

(** [{"tool":"cancel_event","args":{}}]. *)
Definition reply_unknown_tool : string :=
  ("{" ++ quoted "tool" ++ ":" ++ quoted "cancel_event" ++ ","
       ++ quoted "args" ++ ":{}}")%string.

(** [{"tool":"get_availability","args":{"organizer_user_id":"mallory"}}]. *)
Definition reply_with_identity : string :=
  ("{" ++ quoted "tool" ++ ":" ++ quoted "get_availability" ++ ","
       ++ quoted "args" ++ ":{" ++ quoted "organizer_user_id" ++ ":"
       ++ quoted "mallory" ++ "}}")%string.

(** A model that answers [first] to the opening conversation and [final]
    once a tool result has been appended. *)
Definition scripted_llm (first final : string) (messages : list message)
  : failure + string :=
  if (List.length messages <=? 2)%nat then inr first else inr final.

(** The names of the registry. *)
Definition known_tool (name : string) : bool :=
  existsb (String.eqb name)
          ["get_availability"; "suggest_times"; "create_event"]%string.

(** The detection rule in the words of the specification: after trimming,
    the text starts with an opening brace and parses as a JSON object with
    a [tool] key holding a known name and an [args] key holding an
    object. *)
Definition tool_call_per_spec (json_loads : string -> decoded)
           (text : string) : bool :=
  let text := strip text in
  startswith_brace text &&
  match json_loads text with
  | Decoded (JObject obj) =>
      match get "tool" obj, get "args" obj with
      | Some (JString name), Some (JObject _) => known_tool name
      | _, _ => false
      end
  | _ => false
  end.

(** A JSON object. *)
Definition is_object (v : value) : bool :=
  match v with
  | JObject _ => true
  | _ => false
  end.

(** A value that can be a key of a Python [dict]: no list, no dict. *)
Definition hashable (v : value) : bool :=
  match v with
  | JArray _ | JObject _ => false
  | _ => true
  end.

(** The name of a tool of the registry. *)
Definition names_known_tool (v : value) : bool :=
  match v with
  | JString name => known_tool name
  | _ => false
  end.

(** What [json.loads] reads from [reply_call] and from
    [reply_without_args]. *)
Definition call_object : dict :=
  [("tool"%string, JString "get_availability"); ("args"%string, JObject [])].

Definition object_without_args : dict :=
  [("tool"%string, JString "get_availability")].

(** The conversation [chat] opens with. *)
Definition opening (SYSTEM_PROMPT message : string) : list main.message :=
  [("system"%string, SYSTEM_PROMPT); ("user"%string, message)].

(** ** Join link *)

Import request google_calendar.

(** The entry points of a created event that the loop can walk: those of
    a [conferenceData] object, none otherwise. *)
Definition offered_entry_points (nonzero : string -> bool) (created : dict)
  : list value :=
  match get_or_none "conferenceData" created with
  | JObject cd =>
      match entry_points nonzero cd with
      | Some items => items
      | None => []
      end
  | _ => []
  end.

(** An entry point that carries a true [uri]. *)
Definition has_uri (nonzero : string -> bool) (item : value) : bool :=
  match item with
  | JObject ep => truthy nonzero (get_or_none "uri" ep)
  | _ => false
  end.

(** ** Conversation *)

(** The assistant turn that carries a tool result back to the model. *)
Definition tool_message (json_dumps : value -> string) (name : string)
           (result : value) : main.message :=
  ("assistant"%string,
   json_dumps
     (JObject [("tool_result"%string,
                JObject [("name"%string, JString name);
                         ("result"%string, result)])])).

(** The text after the first character of [s], when that character is
    white space. *)
Definition skip (s : string) : option string :=
  match s with
  | String a r =>
      if isspace a then Some r
      else
        match r with
        | String b r2 =>
            if isspace2 a b then Some r2
            else
              match r2 with
              | String c r3 => if isspace3 a b c then Some r3 else None
              | EmptyString => None
              end
        | EmptyString => None
        end
  | EmptyString => None
  end.

(** A byte with which a white-space character can start. *)
Definition starts_space (c : ascii) : bool :=
  isspace c || Ascii.eqb c "194" || Ascii.eqb c "225"
  || Ascii.eqb c "226" || Ascii.eqb c "227".

(** A byte with which a white-space character of several bytes can
    go on. *)
Definition continues_space (c : ascii) : bool :=
  let n := nat_of_ascii c in Nat.leb 128 n && Nat.leb n 175.

(** No byte of [s] starts a white-space character of several bytes. *)
Fixpoint plain (s : string) : bool :=
  match s with
  | String c r =>
      negb (Ascii.eqb c "194" || Ascii.eqb c "225"
            || Ascii.eqb c "226" || Ascii.eqb c "227") && plain r
  | EmptyString => true
  end.

(** ** Work hours *)

(** [replace] accepts the hour and the minute. *)
Definition valid_time (h m : Z) : bool :=
  (0 <=? h) && (h <=? 23) && (0 <=? m) && (m <=? 59).

(** [x] lies on the day numbered [day] between [hs:hm] and [he:hem], and
    that day is one of [days] when [days] names any. *)
Definition in_hours (hs hm he hem : Z) (days : list string) (day : Z)
           (x : segment) : Prop :=
  DAY * day + hs * HOUR + hm * MINUTE <= fst x /\
  snd x <= DAY * day + he * HOUR + hem * MINUTE /\
  fst x / DAY = day /\
  day_allowed days (fst x) = true.

(** The day loop starts every day at [hs:hm]. *)
Definition on_start (hs hm day_cursor : Z) : Prop :=
  day_cursor = DAY * (day_cursor / DAY) + hs * HOUR + hm * MINUTE.

(** [x] lies within the preferred hours of the request on [day]. *)
Definition within_hours (p : params) (day : Z) (x : segment) : Prop :=
  let '((hs, hm), (he, hem)) := hours_of p in
  in_hours hs hm he hem (days p) day x.

(** The first value of [day_cursor]: the day of the window start, at the
    preferred start time. *)
Definition first_cursor (p : params) : Z :=
  let '((hs, hm), _) := hours_of p in
  window_start p - window_start p mod DAY + hs * HOUR + hm * MINUTE.

(** ** Attendees *)

Import request.

(** An address as the normalizer keeps it: trimmed, not empty, with an
    [@]. *)
Definition accepted (e : string) : Prop :=
  strip e = e /\ e <> EmptyString /\ contains_at e = true.

(** A true value that is not a string. *)
Definition true_non_string (nonzero : string -> bool) (v : value) : bool :=
  match v with
  | JString _ => false
  | _ => truthy nonzero v
  end.

(** An item whose [email] is a true value that is not a string. *)
Definition bad_item (nonzero : string -> bool) (item : value) : bool :=
  match item with
  | JObject d => true_non_string nonzero (email_field d)
  | _ => false
  end.

(** The inputs on which [_normalize_attendees] raises. *)
Definition rejected (nonzero : string -> bool) (attendees_raw : value) : bool :=
  match attendees_raw with
  | JObject _ => bad_item nonzero attendees_raw
  | JArray items => existsb (bad_item nonzero) items
  | _ => false
  end.

(** A reading of number texts for running the code: zero when every
    digit before the exponent is [0] (underflow to zero is left out). *)
Fixpoint mantissa_zero (lexeme : string) : bool :=
  match lexeme with
  | String c r =>
      if Ascii.eqb c "e" || Ascii.eqb c "E" then true
      else if is_digit c && negb (Ascii.eqb c "0") then false
      else mantissa_zero r
  | EmptyString => true
  end.

Definition plain_nonzero (lexeme : string) : bool :=
  negb (mantissa_zero lexeme).

(** * Interval subtraction *)

Section Subtraction.

Implicit Types (x b f : segment) (l : list segment) (t : Z).

Ltac cases :=
  repeat match goal with
         | |- context [?a <=? ?b] => destruct (Z.leb_spec a b)
         | |- context [?a <? ?b] => destruct (Z.ltb_spec a b)
         | H : context [?a <=? ?b] |- _ => destruct (Z.leb_spec a b)
         | H : context [?a <? ?b] |- _ => destruct (Z.ltb_spec a b)
         end; cbn [orb andb app In fst snd] in *.

Lemma covered_by_nil t : ~ covered_by [] t.
Proof. intros (x & [] & _). Qed.

Lemma covered_by_app l l' t :
  covered_by (l ++ l') t <-> covered_by l t \/ covered_by l' t.
Proof.
  unfold covered_by. split.
  - intros (x & Hin & Hc). apply in_app_or in Hin as [H | H]; eauto.
  - intros [(x & Hin & Hc) | (x & Hin & Hc)];
      exists x; (split; [apply in_or_app; auto | exact Hc]).
Qed.

Lemma covered_by_one x t : covered_by [x] t <-> covers x t.
Proof.
  unfold covered_by. split.
  - intros (y & [<- | []] & Hc). exact Hc.
  - intros Hc. exists x. split; [left; reflexivity | exact Hc].
Qed.

(** One cut removes exactly the instants of the obstacle. *)
Lemma cut_covers b x t :
  covered_by (cut b x) t <-> covers x t /\ ~ covers b t.
Proof.
  destruct b as [bs be], x as [xs xe]. unfold cut.
  unfold covered_by, covers. cbn [fst snd].
  split.
  - intros ([ys ye] & Hin & Hc). cbn [fst snd] in Hc.
    cases;
      repeat (destruct Hin as [Hin | Hin]; [injection Hin as <- <-; lia |]);
      destruct Hin.
  - intros [Hx Hb].
    destruct (Z_lt_dec t bs); cases; try lia;
      solve [ eexists; split; [left; reflexivity | cbn; lia]
            | eexists; split; [right; left; reflexivity | cbn; lia] ].
Qed.

Lemma cut_all_covers b l t :
  covered_by (cut_all b l) t <-> covered_by l t /\ ~ covers b t.
Proof.
  unfold cut_all. induction l as [| x l IH]; cbn [flat_map].
  - split; [intros H | intros [H _]]; destruct (covered_by_nil _ H).
  - rewrite covered_by_app, cut_covers, IH.
    change (x :: l) with ([x] ++ l).
    rewrite covered_by_app, covered_by_one. tauto.
Qed.

Lemma subtract_from_covers busy : forall l t,
  covered_by (subtract_from l busy) t <->
  covered_by l t /\ forall b, In b busy -> ~ covers b t.
Proof.
  unfold subtract_from.
  induction busy as [| b busy IH]; intros l t; cbn [fold_left].
  - split; [intros H; split; [exact H | intros b []] | tauto].
  - rewrite IH, cut_all_covers. cbn [In]. split.
    + intros [[Hl Hb] Hall]. split; [exact Hl |].
      intros b' [<- | Hin]; auto.
    + intros [Hl Hall]. repeat split; auto.
Qed.

Lemma covers_dec x t : {covers x t} + {~ covers x t}.
Proof.
  unfold covers.
  destruct (Z_le_dec (fst x) t), (Z_lt_dec t (snd x));
    (left; lia) || (right; lia).
Qed.

Lemma covered_by_dec l t : {covered_by l t} + {~ covered_by l t}.
Proof.
  induction l as [| x l IH].
  - right. apply covered_by_nil.
  - destruct (covers_dec x t) as [Hx | Hx].
    + left. exists x. split; [left; reflexivity | exact Hx].
    + destruct IH as [Hl | Hl].
      * left. destruct Hl as (y & Hin & Hy).
        exists y. split; [right; exact Hin | exact Hy].
      * right. intros (y & [<- | Hin] & Hy); [auto |].
        apply Hl. exists y. auto.
Qed.

Lemma cut_inside b x y : In y (cut b x) -> inside y x.
Proof.
  destruct b as [bs be], x as [xs xe]. unfold cut, inside.
  intros Hin. cases;
    repeat (destruct Hin as [<- | Hin]; [cbn; lia |]); destruct Hin.
Qed.

Lemma cut_apart b x y : In y (cut b x) -> apart y b.
Proof.
  destruct b as [bs be], x as [xs xe]. unfold cut, apart.
  intros Hin. cases;
    repeat (destruct Hin as [<- | Hin]; [cbn; lia |]); destruct Hin.
Qed.

Lemma inside_apart y x b : inside y x -> apart x b -> apart y b.
Proof. unfold inside, apart. lia. Qed.

Lemma inside_trans z y x : inside z y -> inside y x -> inside z x.
Proof. unfold inside. lia. Qed.

Lemma inside_refl x : inside x x.
Proof. unfold inside. lia. Qed.

Lemma subtract_from_inside busy : forall l y,
  In y (subtract_from l busy) -> exists x, In x l /\ inside y x.
Proof.
  unfold subtract_from.
  induction busy as [| b busy IH]; intros l y Hin; cbn [fold_left] in Hin.
  - exists y. split; [exact Hin | apply inside_refl].
  - apply IH in Hin as (z & Hz & Hyz).
    unfold cut_all in Hz. apply in_flat_map in Hz as (x & Hx & Hzx).
    exists x. split; [exact Hx |].
    eapply inside_trans; [exact Hyz | eapply cut_inside; exact Hzx].
Qed.

Lemma subtract_from_apart busy : forall l y b,
  In y (subtract_from l busy) -> In b busy -> apart y b.
Proof.
  unfold subtract_from.
  induction busy as [| b0 busy IH]; intros l y b Hin Hb; [destruct Hb |].
  cbn [fold_left] in Hin. destruct Hb as [<- | Hb].
  - apply subtract_from_inside in Hin as (z & Hz & Hyz).
    unfold cut_all in Hz. apply in_flat_map in Hz as (x & Hx & Hzx).
    eapply inside_apart; [exact Hyz | eapply cut_apart; exact Hzx].
  - eapply IH; eassumption.
Qed.

Lemma apart_no_common_instant y b t : apart y b -> ~ (covers y t /\ covers b t).
Proof. unfold apart, covers. lia. Qed.

End Subtraction.

(** C4.  Subtraction correctness: no segment of [subtract f busy] overlaps
    an obstacle of [busy] (by the source's own test, and in that the two
    share no instant), and an instant belongs to [f] exactly when it
    belongs to a result segment or to [f] and some obstacle. *)
Theorem subtract_correct (f : segment) (busy : list segment) :
  (forall x b, In x (subtract f busy) -> In b busy ->
     apart x b /\ forall t, ~ (covers x t /\ covers b t)) /\
  (forall t, covers f t <->
     covered_by (subtract f busy) t \/ (covers f t /\ covered_by busy t)).
Proof.
  split.
  - intros x b Hx Hb.
    assert (Ha : apart x b) by (eapply subtract_from_apart; eassumption).
    split; [exact Ha | intros t; apply apart_no_common_instant; exact Ha].
  - intros t. unfold subtract. rewrite subtract_from_covers, covered_by_one.
    split.
    + intros Hf. destruct (covered_by_dec busy t) as [Hb | Hb]; [tauto |].
      left. split; [exact Hf |]. intros b Hin Hc. apply Hb. exists b. auto.
    + tauto.
Qed.

(** * Order of the obstacles *)

Section ObstacleOrder.

Implicit Types (a b x f : segment) (l : list segment).

Ltac split_test :=
  match goal with
  | |- context [?a <=? ?b] => destruct (Z.leb_spec a b)
  | |- context [?a <? ?b] => destruct (Z.ltb_spec a b)
  end; cbn [orb app flat_map cut fst snd]; try lia.

(** Two proper obstacles cut a segment into the same pieces, in the
    same order, whichever is applied first. *)
Lemma cut_cut_comm a b x :
  proper a -> proper b ->
  flat_map (cut a) (cut b x) = flat_map (cut b) (cut a x).
Proof.
  destruct a as [s1 e1], b as [s2 e2], x as [xs xe].
  unfold proper; cbn [fst snd]; intros Ha Hb.
  unfold cut at 2 4.
  repeat split_test; try reflexivity; repeat (f_equal; try lia).
Qed.

Lemma cut_all_comm a b l :
  proper a -> proper b ->
  cut_all a (cut_all b l) = cut_all b (cut_all a l).
Proof.
  intros Ha Hb. unfold cut_all.
  induction l as [| x l IH]; [reflexivity |].
  cbn [flat_map]. rewrite !flat_map_app, IH.
  f_equal. now apply cut_cut_comm.
Qed.

Lemma subtract_from_permutation busy busy' :
  Permutation busy busy' -> Forall proper busy ->
  forall l, subtract_from l busy = subtract_from l busy'.
Proof.
  unfold subtract_from.
  induction 1 as [| b busy busy' Hp IH | a b busy
                  | busy1 busy2 busy3 H12 IH12 H23 IH23];
    intros Hall l; cbn [fold_left].
  - reflexivity.
  - apply IH. now inversion Hall.
  - inversion Hall as [| ? ? Hb Hall']; subst.
    inversion Hall' as [| ? ? Ha _]; subst.
    now rewrite cut_all_comm.
  - rewrite IH12 by exact Hall. apply IH23.
    eapply Permutation_Forall; eassumption.
Qed.

End ObstacleOrder.

(** The obstacles of the specification are intervals.  A block written
    backwards, such as [(7, 3)], is none: with it two orders can leave
    different lists of segments, over the same free instants. *)
Lemma subtract_order_matters :
  ~ (forall (f : segment) (busy busy' : list segment),
       Permutation busy busy' ->
       forall x, In x (subtract f busy) <-> In x (subtract f busy')).
Proof.
  intros H.
  specialize (H (0, 10) [(7, 3); (4, 5)] [(4, 5); (7, 3)]
                (perm_swap _ _ _) (5, 7)).
  destruct H as [H _].
  assert (Hin : In (5, 7) (subtract (0, 10) [(7, 3); (4, 5)]))
    by (right; left; reflexivity).
  apply H in Hin.
  destruct Hin as [Hin | [Hin | []]]; discriminate Hin.
Qed.

(** C5.  Applying the obstacles in another order leaves the same free
    set: the same free instants for every list of obstacles and, when
    the obstacles are intervals (none ends before it starts), the very
    same list of segments. *)
Theorem subtract_permutation (f : segment) (busy busy' : list segment) :
  Permutation busy busy' ->
  (forall t, covered_by (subtract f busy) t <-> covered_by (subtract f busy') t)
  /\ (Forall proper busy -> subtract f busy = subtract f busy').
Proof.
  intros Hp. split.
  - intros t. unfold subtract. rewrite !subtract_from_covers.
    split; intros [Hf Hall]; (split; [exact Hf |]); intros b Hb; apply Hall.
    + eapply Permutation_in; [apply Permutation_sym |]; eassumption.
    + eapply Permutation_in; eassumption.
  - intros Hall. now apply subtract_from_permutation.
Qed.

Lemma subtract_permutation_witness :
  Permutation [(2, 4); (3, 6)] [(3, 6); (2, 4)] /\
  ((forall t, covered_by (subtract (0, 10) [(2, 4); (3, 6)]) t <->
              covered_by (subtract (0, 10) [(3, 6); (2, 4)]) t) /\
   (Forall proper [(2, 4); (3, 6)] ->
    subtract (0, 10) [(2, 4); (3, 6)] = subtract (0, 10) [(3, 6); (2, 4)])).
Proof.
  split; [apply perm_swap |].
  apply (subtract_permutation (0, 10) [(2, 4); (3, 6)] [(3, 6); (2, 4)]).
  apply perm_swap.
Defined.

(** * Rolling a past slot or window forward *)

(** The jump is the whole number of weeks that brackets [now - end]. *)
Lemma weeks_to_jump_bracket (end_dt now_local : Z) :
  (weeks_to_jump end_dt now_local - 1) * WEEK
  <= now_local - end_dt
  < weeks_to_jump end_dt now_local * WEEK.
Proof.
  unfold weeks_to_jump. set (d := now_local - end_dt).
  pose proof (Z.mul_div_le d DAY eq_refl).
  pose proof (Z.mul_succ_div_gt d DAY eq_refl).
  pose proof (Z.mul_div_le (d / DAY) 7 eq_refl).
  pose proof (Z.mul_succ_div_gt (d / DAY) 7 eq_refl).
  change WEEK with (7 * DAY). change DAY with 86400000000 in *. lia.
Qed.

(** C1.  A slot whose end is at or before now is moved, start and end
    alike, by [weeks * 7] days with [weeks = floor((now - end).days / 7) + 1];
    the moved end is after now, and no smaller whole number of weeks
    achieves that.  A slot whose end is after now is kept.  When the
    start is before the end, [create_event] commits exactly this slot. *)
Theorem create_event_roll_forward (start_dt end_dt now_local : Z) :
  (end_dt <= now_local ->
     let weeks := weeks_to_jump end_dt now_local in
     roll_forward start_dt end_dt now_local
       = (start_dt + weeks * WEEK, end_dt + weeks * WEEK) /\
     now_local < end_dt + weeks * WEEK /\
     (forall k, 0 <= k < weeks -> end_dt + k * WEEK <= now_local)) /\
  (now_local < end_dt ->
     roll_forward start_dt end_dt now_local = (start_dt, end_dt)) /\
  (start_dt < end_dt ->
     create_event start_dt end_dt now_local
       = Some (roll_forward start_dt end_dt now_local)).
Proof.
  pose proof (weeks_to_jump_bracket end_dt now_local) as Hw.
  unfold create_event, roll_forward. fold (weeks_to_jump end_dt now_local).
  cbv zeta. change WEEK with (7 * DAY) in *.
  set (weeks := weeks_to_jump end_dt now_local) in *.
  split; [intros Hpast; split; [| split] | split].
  - destruct (Z.leb_spec end_dt now_local); [| lia]. f_equal; ring.
  - lia.
  - intros k Hk. assert (0 < DAY) by reflexivity. nia.
  - intros Hfut.
    destruct (Z.leb_spec end_dt now_local); [lia | reflexivity].
  - intros Hslot. destruct (Z.leb_spec end_dt now_local).
    + destruct (Z.leb_spec (end_dt + 7 * weeks * DAY)
                           (start_dt + 7 * weeks * DAY));
        [lia | reflexivity].
    + destruct (Z.leb_spec end_dt start_dt); [lia | reflexivity].
Qed.

(** A slot of last week, Monday 13:00 to 13:30, seen ten days later. *)
Lemma create_event_roll_forward_witness :
  13 * HOUR + 30 * MINUTE <= 10 * DAY /\
  roll_forward (13 * HOUR) (13 * HOUR + 30 * MINUTE) (10 * DAY)
    = (13 * HOUR + 2 * WEEK, 13 * HOUR + 30 * MINUTE + 2 * WEEK).
Proof.
  split; [discriminate |].
  apply (create_event_roll_forward
           (13 * HOUR) (13 * HOUR + 30 * MINUTE) (10 * DAY)).
  discriminate.
Defined.

Section RollWindow.

Variable now_utc : Z.

Lemma roll_window_rolled (ws we : datetime) :
  exists k, rolled now_utc ws we (roll_window now_utc ws we) k.
Proof.
  funelim (roll_window now_utc ws we).
  - match goal with
    | IH : exists k, rolled _ _ _ _ k |- _ =>
        destruct IH as (k & Hk & Hs & Hzs & He & Hze & Hnow & Hmin)
    end.
    exists (k + 1). unfold rolled.
    cbn [plus_days wall zone] in *.
    change WEEK with (7 * DAY) in *.
    repeat split; try lia; try assumption.
    intros j Hj. destruct (Z.eq_dec j 0) as [-> | Hne].
    + unfold instant in *. cbn [plus_days wall zone].
      replace (wall we + 7 * 0 * DAY) with (wall we) by ring. assumption.
    + specialize (Hmin (j - 1) ltac:(lia)).
      unfold instant in *. cbn [plus_days wall zone] in *.
      replace (wall we + 7 * j * DAY)
        with (wall we + 7 * DAY + 7 * (j - 1) * DAY) by ring.
      exact Hmin.
  - exists 0. unfold rolled. cbn [fst snd].
    repeat split; try lia.
Qed.

End RollWindow.

(** C2.  Whenever [get_availability] returns a window, its end is after
    now.  Both boundaries are those given, moved on their wall clocks by
    the same whole number [k] of weeks (so weekday, time of day and the
    wall-clock length of the window are kept), and [k] is the least
    number of weeks that puts the end after now; it is 0 when the given
    end is already after now. *)
Theorem get_availability_future
        (tz : tzinfo) (now_utc : Z) (window_start window_end : option parsed)
        (r : datetime * datetime) :
  get_availability tz now_utc window_start window_end = Some r ->
  now_utc < instant (snd r) /\
  exists ws we k,
    window_start = Some ws /\ window_end = Some we /\
    rolled now_utc (with_zone tz ws) (with_zone tz we) r k /\
    wall (snd r) - wall (fst r) = reading we - reading ws /\
    (now_utc < instant (with_zone tz we) -> k = 0).
Proof.
  unfold get_availability.
  destruct window_start as [ws |], window_end as [we |]; try discriminate.
  intros [= <-].
  destruct (roll_window_rolled now_utc (with_zone tz ws) (with_zone tz we))
    as (k & Hk).
  pose proof Hk as (Hk0 & Hs & _ & He & _ & Hnow & Hmin).
  split; [exact Hnow |].
  exists ws, we, k.
  split; [reflexivity |]. split; [reflexivity |]. split; [exact Hk |]. split.
  - rewrite Hs, He. unfold with_zone.
    destruct (offset ws), (offset we); cbn [wall]; ring.
  - intros Hfut. destruct (Z.eq_dec k 0) as [-> | Hne]; [reflexivity |].
    specialize (Hmin 0 ltac:(lia)).
    unfold instant in *. cbn [plus_days wall zone] in Hmin.
    replace (wall (with_zone tz we) + 7 * 0 * DAY)
      with (wall (with_zone tz we)) in Hmin by ring.
    lia.
Qed.

(** A late October window, read in early November: it moves by two
    weeks, across the end of daylight saving. *)
Lemma get_availability_future_witness :
  let r := roll_window november_noon (with_zone EASTERN october_start)
                       (with_zone EASTERN october_end) in
  get_availability EASTERN november_noon
                   (Some october_start) (Some october_end) = Some r /\
  november_noon < instant (snd r) /\
  wall (fst r) = 20403 * DAY + 13 * HOUR /\
  wall (snd r) = 20403 * DAY + 17 * HOUR.
Proof.
  cbv zeta. split; [reflexivity |].
  split; [| split; vm_compute; reflexivity].
  exact (proj1 (get_availability_future
                  EASTERN november_noon
                  (Some october_start) (Some october_end) _ eq_refl)).
Defined.

(** * Slot suggestion *)

Section Iso.

Lemma iso_le t : iso t <= t.
Proof.
  unfold iso. pose proof (Z.mod_pos_bound t SECOND eq_refl). lia.
Qed.

Lemma iso_mono a b : a <= b -> iso a <= iso b.
Proof.
  intros Hab. unfold iso.
  rewrite (Z.mod_eq a SECOND), (Z.mod_eq b SECOND) by discriminate.
  pose proof (Z.div_le_mono a b SECOND eq_refl Hab).
  change SECOND with 1000000 in *. lia.
Qed.

Lemma iso_whole t : t mod SECOND = 0 -> iso t = t.
Proof. unfold iso. intros H. rewrite H. apply Z.sub_0_r. Qed.

Lemma iso_is_whole t : iso t mod SECOND = 0.
Proof.
  unfold iso. rewrite Zminus_mod_idemp_r, Z.sub_diag. reflexivity.
Qed.

Lemma iso_idem t : iso (iso t) = iso t.
Proof. apply iso_whole, iso_is_whole. Qed.

(** Adding to a whole second: only what is added is cut. *)
Lemma iso_add_whole t d : t mod SECOND = 0 -> iso (t + d) = t + iso d.
Proof.
  intros (k & ->)%Z.mod_divide; [| discriminate].
  unfold iso. rewrite Z.add_comm, Z.mod_add by discriminate. ring.
Qed.

End Iso.

Section Propose.

Variable duration : Z.

Lemma propose_refine_acc (segments : list segment) :
  forall proposals, (List.length proposals < 3)%nat ->
    propose duration (refine duration segments) proposals
    = proposals ++
      map (slot_at duration)
          (firstn (3 - List.length proposals) (long_enough duration segments)).
Proof.
  unfold refine, long_enough.
  induction segments as [| x segments IH]; intros proposals Hlen.
  - cbn. rewrite firstn_nil. cbn. now rewrite app_nil_r.
  - cbn [filter]. destruct (duration <=? snd x - fst x) eqn:Hlong;
      cbn [andb]; [| now apply IH].
    cbn [map propose fst snd].
    destruct (iso (fst x) + duration <=? iso (snd x)) eqn:Hfit.
    + change (iso (iso (fst x)), iso (iso (fst x) + duration))
        with (iso (iso (fst x)), snd (slot_at duration x)).
      rewrite iso_idem.
      change (iso (fst x), snd (slot_at duration x))
        with (slot_at duration x).
      rewrite length_app. cbn [List.length].
      destruct (3 - List.length proposals)%nat as [| n] eqn:Hn; [lia |].
      cbn [firstn map].
      destruct (Z.leb_spec 3 (Z.of_nat (List.length proposals + 1))).
      * assert (n = 0%nat) as -> by lia. reflexivity.
      * rewrite IH by (rewrite length_app; cbn; lia).
        rewrite length_app. cbn [List.length].
        replace (3 - (List.length proposals + 1))%nat with n by lia.
        now rewrite <- app_assoc.
    + destruct (Z.leb_spec 3 (Z.of_nat (List.length proposals))); [lia |].
      now apply IH.
Qed.

Lemma propose_refine (segments : list segment) :
  propose duration (refine duration segments) []
  = map (slot_at duration) (firstn 3 (long_enough duration segments)).
Proof. now rewrite propose_refine_acc by (cbn; lia). Qed.

End Propose.

(** The candidates are the slots of the first three segments that can
    hold the duration. *)
Lemma suggest_times_candidates (p : params) (s : suggestion) :
  suggest_times p = Some s ->
  exists blocks,
    free_blocks p = Some blocks /\
    candidates s
    = map (slot_at (duration_of p))
          (firstn 3 (long_enough (duration_of p)
                                 (free_segments (busy p) blocks))).
Proof.
  unfold suggest_times.
  destruct (free_blocks p) as [blocks |]; [| discriminate].
  intros [= <-]. exists blocks. split; [reflexivity |].
  cbn [candidates]. apply propose_refine.
Qed.

(** ** Chronological order of the free segments *)

Section Chronology.

Implicit Types (x y b : segment) (l : list segment).

Ltac tests :=
  repeat match goal with
         | |- context [?a <=? ?b] => destruct (Z.leb_spec a b)
         | |- context [?a <? ?b] => destruct (Z.ltb_spec a b)
         | H : context [?a <=? ?b] |- _ => destruct (Z.leb_spec a b)
         | H : context [?a <? ?b] |- _ => destruct (Z.ltb_spec a b)
         end; cbn [orb andb app In fst snd] in *.

Lemma sorted_app l1 l2 :
  StronglySorted precedes l1 -> StronglySorted precedes l2 ->
  (forall x y, In x l1 -> In y l2 -> precedes x y) ->
  StronglySorted precedes (l1 ++ l2).
Proof.
  intros H1 H2 H12. induction H1 as [| x l1 Hl1 IH Hx]; [exact H2 |].
  cbn [app]. constructor.
  - apply IH. intros a c Ha Hc. apply H12; [right; exact Ha | exact Hc].
  - apply Forall_app. split; [exact Hx |].
    apply Forall_forall. intros y Hy. apply H12; [left; reflexivity | exact Hy].
Qed.

Lemma cut_forward b x y : forward x -> In y (cut b x) -> forward y.
Proof.
  destruct b as [bs be], x as [xs xe]. unfold cut, forward. cbn [fst snd].
  intros Hx Hin. tests;
    repeat (destruct Hin as [<- | Hin]; [cbn; lia |]); destruct Hin.
Qed.

Lemma cut_whole b x y : whole b -> whole x -> In y (cut b x) -> whole y.
Proof.
  destruct b as [bs be], x as [xs xe]. unfold cut, whole. cbn [fst snd].
  intros [Hb1 Hb2] [Hx1 Hx2] Hin. tests;
    repeat (destruct Hin as [<- | Hin]; [cbn; auto |]); destruct Hin.
Qed.

Lemma cut_sorted b x : proper b -> StronglySorted precedes (cut b x).
Proof.
  destruct b as [bs be], x as [xs xe]. unfold cut, proper. cbn [fst snd].
  intros Hb. tests;
    repeat (constructor; [| repeat constructor; unfold precedes; cbn; lia]);
    constructor.
Qed.

Lemma cut_all_sorted b l :
  proper b -> StronglySorted precedes l ->
  StronglySorted precedes (cut_all b l).
Proof.
  intros Hb Hl. unfold cut_all.
  induction Hl as [| x l Hl IH Hx]; cbn [flat_map]; [constructor |].
  apply sorted_app; [now apply cut_sorted | exact IH |].
  intros y z Hy Hz. apply in_flat_map in Hz as (x' & Hx' & Hz).
  rewrite Forall_forall in Hx. specialize (Hx x' Hx').
  apply cut_inside in Hy, Hz. unfold inside, precedes in *. lia.
Qed.

Lemma subtract_from_sorted busy : forall l,
  Forall proper busy -> StronglySorted precedes l ->
  StronglySorted precedes (subtract_from l busy).
Proof.
  unfold subtract_from.
  induction busy as [| b busy IH]; intros l Hb Hl; cbn [fold_left];
    [exact Hl |].
  inversion Hb; subst. apply IH; [assumption |]. now apply cut_all_sorted.
Qed.

Lemma subtract_from_forward busy : forall l,
  Forall forward l -> Forall forward (subtract_from l busy).
Proof.
  unfold subtract_from.
  induction busy as [| b busy IH]; intros l Hl; cbn [fold_left];
    [exact Hl |].
  apply IH. apply Forall_forall. intros y Hy.
  unfold cut_all in Hy. apply in_flat_map in Hy as (x & Hx & Hy).
  rewrite Forall_forall in Hl. apply (cut_forward b x y); auto.
Qed.

Lemma subtract_from_whole busy : forall l,
  Forall whole busy -> Forall whole l -> Forall whole (subtract_from l busy).
Proof.
  unfold subtract_from.
  induction busy as [| b busy IH]; intros l Hb Hl; cbn [fold_left];
    [exact Hl |].
  inversion Hb; subst. apply IH; [assumption |].
  apply Forall_forall. intros y Hy.
  unfold cut_all in Hy. apply in_flat_map in Hy as (x & Hx & Hy).
  rewrite Forall_forall in Hl. apply (cut_whole b x y); auto.
Qed.

Lemma subtract_from_app busy : forall l1 l2,
  subtract_from (l1 ++ l2) busy
  = subtract_from l1 busy ++ subtract_from l2 busy.
Proof.
  unfold subtract_from.
  induction busy as [| b busy IH]; intros l1 l2; cbn [fold_left];
    [reflexivity |].
  replace (cut_all b (l1 ++ l2)) with (cut_all b l1 ++ cut_all b l2)
    by (unfold cut_all; now rewrite flat_map_app).
  apply IH.
Qed.

Lemma subtract_from_nil busy : subtract_from [] busy = [].
Proof.
  unfold subtract_from. induction busy as [| b busy IH]; [reflexivity |].
  exact IH.
Qed.

(** Subtracting block by block is subtracting from all blocks at once. *)
Lemma free_segments_subtract_from busy blocks :
  free_segments busy blocks = subtract_from blocks busy.
Proof.
  unfold free_segments, subtract.
  induction blocks as [| x blocks IH]; cbn [flat_map].
  - now rewrite subtract_from_nil.
  - change (x :: blocks) with ([x] ++ blocks).
    now rewrite subtract_from_app, IH.
Qed.

End Chronology.

(** ** The daily free blocks *)

Section FreeBlocks.

Lemma whole_day_is_whole q : (DAY * q) mod SECOND = 0.
Proof.
  replace (DAY * q) with ((q * 86400) * SECOND)
    by (unfold DAY, HOUR, MINUTE; ring).
  apply Z.mod_mul. discriminate.
Qed.

(** [replace] keeps the day. *)
Lemma replace_hm_same_day t h m t' :
  replace_hm t h m = Some t' ->
  DAY * (t / DAY) <= t' < DAY * (t / DAY) + DAY.
Proof.
  unfold replace_hm.
  destruct ((0 <=? h) && (h <=? 23) && (0 <=? m) && (m <=? 59)) eqn:E;
    [| discriminate].
  intros [= <-].
  repeat rewrite andb_true_iff in E. repeat rewrite Z.leb_le in E.
  pose proof (Z.mod_pos_bound t MINUTE eq_refl).
  rewrite (Z.mod_eq t DAY) by discriminate.
  unfold DAY, HOUR in *. change MINUTE with 60000000 in *. lia.
Qed.

Lemma next_day_number t t' :
  DAY * ((t + DAY) / DAY) <= t' -> DAY * (t / DAY) + DAY <= DAY * (t' / DAY).
Proof.
  replace (t + DAY) with (t + 1 * DAY) by ring.
  rewrite Z.div_add by discriminate. intros H.
  assert (t / DAY + 1 <= t' / DAY).
  { apply Z.div_le_lower_bound; [reflexivity | lia]. }
  change DAY with 86400000000 in *. lia.
Qed.

Variables wstart wend : Z.

Lemma day_block_ok days day_cursor day_end h m x :
  replace_hm day_cursor h m = Some day_end ->
  In x (day_block wstart wend days day_cursor day_end) ->
  block_ok wstart wend day_cursor x /\ snd x < DAY * (day_cursor / DAY) + DAY.
Proof.
  intros Hend%replace_hm_same_day. unfold day_block, clamp_to_window.
  destruct (Z.ltb_spec day_cursor day_end); [| intros []].
  destruct (Z.ltb_spec (Z.max day_cursor wstart) (Z.min day_end wend));
    [| intros []].
  destruct (day_allowed _ _); [| intros []].
  intros [<- | []]. cbn [fst snd]. unfold block_ok, forward, whole.
  cbn [fst snd].
  pose proof (Z.mul_div_le day_cursor DAY eq_refl) as Hday.
  pose proof (iso_mono _ _ Hday) as Hfloor.
  rewrite (iso_whole _ (whole_day_is_whole _)) in Hfloor.
  pose proof (iso_mono day_cursor (Z.max day_cursor wstart) ltac:(lia)).
  pose proof (iso_mono wstart (Z.max day_cursor wstart) ltac:(lia)).
  pose proof (iso_mono (Z.min day_end wend) wend ltac:(lia)).
  pose proof (iso_mono (Z.max day_cursor wstart) (Z.min day_end wend)
                       ltac:(lia)).
  pose proof (iso_le (Z.min day_end wend)).
  repeat split; try apply iso_is_whole; lia.
Qed.

Lemma block_ok_later c c' x :
  DAY * (c / DAY) <= DAY * (c' / DAY) ->
  block_ok wstart wend c' x -> block_ok wstart wend c x.
Proof. unfold block_ok. intuition lia. Qed.

Lemma free_blocks_from_ok hs hm he hem days day_cursor blocks :
  free_blocks_from wstart wend hs hm he hem days day_cursor = Some blocks ->
  StronglySorted precedes blocks /\
  Forall (block_ok wstart wend day_cursor) blocks.
Proof.
  revert blocks.
  funelim (free_blocks_from wstart wend hs hm he hem days day_cursor);
    intros blocks Hblocks; try discriminate.
  - injection Hblocks as <-. split; constructor.
  - destruct (free_blocks_from wstart wend hs hm he hem _ next)
      as [rest |] eqn:Hrest; [| discriminate].
    injection Hblocks as <-.
    match goal with
    | IH : forall b, _ = Some b -> _ |- _ =>
        destruct (IH rest ltac:(first [reflexivity | exact Hrest]))
          as [Hsorted Hok]
    end.
    match goal with
    | H : replace_hm (day_cursor + DAY) hs hm = Some next |- _ =>
        pose proof (replace_hm_same_day _ _ _ _ H) as [Hnext _];
        apply next_day_number in Hnext
    end.
    split.
    + apply sorted_app; [| exact Hsorted |].
      * unfold day_block.
        destruct (_ <? _); [| constructor].
        destruct (clamp_to_window _ _ _ _) as [[d0 d1] |]; [| constructor].
        destruct (day_allowed _ _); repeat constructor.
      * intros x y Hx Hy.
        eapply day_block_ok in Hx as [_ Hx]; [| eassumption].
        rewrite Forall_forall in Hok. destruct (Hok y Hy) as [Hy' _].
        unfold precedes. assert (0 < DAY) by reflexivity. lia.
    + apply Forall_app. split.
      * apply Forall_forall. intros x Hx.
        eapply day_block_ok in Hx as [Hx _]; eassumption.
      * eapply Forall_impl; [| exact Hok].
        intros x. apply block_ok_later.
        assert (0 < DAY) by reflexivity. lia.
Qed.

End FreeBlocks.

Lemma free_blocks_ok (p : params) (blocks : list segment) :
  free_blocks p = Some blocks ->
  StronglySorted precedes blocks /\
  Forall (fun x => forward x /\ whole x /\
                   iso (window_start p) <= fst x /\
                   snd x <= iso (window_end p)) blocks.
Proof.
  unfold free_blocks.
  destruct (hours_of p) as [[hs hm] [he hem]].
  destruct (replace_hms0 _ _ _) as [day_cursor |]; [| discriminate].
  intros [Hs Hok]%free_blocks_from_ok. split; [exact Hs |].
  eapply Forall_impl; [| exact Hok]. unfold block_ok. tauto.
Qed.

(** ** The candidates *)

Section Candidates.

Implicit Types (l : list segment) (x c : segment).

Lemma in_firstn {A : Type} (n : nat) (l : list A) (a : A) :
  In a (firstn n l) -> In a l.
Proof.
  intros H. rewrite <- (firstn_skipn n l). apply in_or_app. now left.
Qed.

Lemma sorted_filter {A : Type} (R : A -> A -> Prop) (f : A -> bool)
      (l : list A) :
  StronglySorted R l -> StronglySorted R (filter f l).
Proof.
  induction 1 as [| a l Hl IH Ha]; cbn [filter]; [constructor |].
  destruct (f a); [| exact IH]. constructor; [exact IH |].
  rewrite Forall_forall in *. intros y Hy%filter_In. now apply Ha.
Qed.

Lemma sorted_firstn {A : Type} (R : A -> A -> Prop) (n : nat) (l : list A) :
  StronglySorted R l -> StronglySorted R (firstn n l).
Proof.
  intros H. revert n.
  induction H as [| a l Hl IH Ha]; intros [| n]; cbn [firstn];
    try constructor; [apply IH |].
  rewrite Forall_forall in *. intros y Hy%in_firstn. now apply Ha.
Qed.

Lemma precedes_chronological l :
  StronglySorted precedes l -> Forall forward l -> chronological l.
Proof.
  unfold chronological.
  induction 1 as [| a l Hl IH Ha]; intros Hf; [constructor |].
  inversion Hf as [| ? ? Hfa Hfl]; subst.
  constructor; [now apply IH |].
  eapply Forall_impl; [| exact Ha].
  unfold precedes, forward in *. intros y. lia.
Qed.

Lemma slots_chronological duration l :
  chronological l -> chronological (map (slot_at duration) l).
Proof.
  unfold chronological.
  induction 1 as [| a l Hl IH Ha]; cbn [map]; [constructor |].
  constructor; [exact IH |].
  rewrite Forall_forall in *. intros c (y & <- & Hy)%in_map_iff.
  cbn [slot_at fst]. apply iso_mono. now apply Ha.
Qed.

(** With proper busy blocks the free segments come in chronological
    order, day after day. *)
Lemma free_segments_chronological (p : params) (blocks : list segment) :
  free_blocks p = Some blocks -> Forall proper (busy p) ->
  chronological (free_segments (busy p) blocks).
Proof.
  intros [Hs Hok]%free_blocks_ok Hb.
  rewrite free_segments_subtract_from.
  apply precedes_chronological.
  - now apply subtract_from_sorted.
  - apply subtract_from_forward.
    eapply Forall_impl; [| exact Hok]. now intros x (Hx & _).
Qed.

End Candidates.

(** C6 as stated fails in three ways.  A duration with a fraction of a
    second: for 0.01 minutes the candidate starts and ends at 13:00:00,
    so it does not last the six tenths of a second requested.  More than
    three segments: on the week scenario Thursday's free segment is long
    enough but no candidate is anchored at it.  A segment that starts
    within a second: after a block that is busy until 13:00:00.5 the
    candidate starts at 13:00:00, where no free segment starts. *)
Lemma suggest_times_slots_counterexample :
  ~ (forall (p : params) (s : suggestion),
       suggest_times p = Some s ->
       forall c, In c (candidates s) -> snd c - fst c = duration_of p) /\
  ~ (forall (p : params) (s : suggestion) (blocks : list segment),
       suggest_times p = Some s -> free_blocks p = Some blocks ->
       forall x, In x (free_segments (busy p) blocks) ->
                 duration_of p <= snd x - fst x ->
                 exists c, In c (candidates s) /\ fst c = fst x) /\
  ~ (forall (p : params) (s : suggestion) (blocks : list segment),
       suggest_times p = Some s -> free_blocks p = Some blocks ->
       forall c, In c (candidates s) ->
                 exists x, In x (free_segments (busy p) blocks) /\
                           fst c = fst x).
Proof.
  split; [| split]; intros H.
  - destruct (suggest_times fraction_request) as [s |] eqn:Hs;
      [| vm_compute in Hs; discriminate].
    specialize (H fraction_request s Hs).
    vm_compute in Hs. injection Hs as <-.
    specialize (H (MONDAY + 13 * HOUR, MONDAY + 13 * HOUR)
                  ltac:(left; reflexivity)).
    vm_compute in H. discriminate H.
  - destruct (suggest_times week_request) as [s |] eqn:Hs;
      [| vm_compute in Hs; discriminate].
    destruct (free_blocks week_request) as [blocks |] eqn:Hb;
      [| vm_compute in Hb; discriminate].
    specialize (H week_request s blocks Hs Hb).
    vm_compute in Hs, Hb. injection Hs as <-. injection Hb as <-.
    destruct (H (MONDAY + 3 * DAY + 13 * HOUR, MONDAY + 3 * DAY + 17 * HOUR))
      as (c & Hin & Hc).
    + vm_compute. tauto.
    + vm_compute. discriminate.
    + vm_compute in Hin, Hc.
      destruct Hin as [<- | [<- | [<- | []]]]; discriminate Hc.
  - destruct (suggest_times half_second_request) as [s |] eqn:Hs;
      [| vm_compute in Hs; discriminate].
    destruct (free_blocks half_second_request) as [blocks |] eqn:Hb;
      [| vm_compute in Hb; discriminate].
    specialize (H half_second_request s blocks Hs Hb).
    vm_compute in Hs, Hb. injection Hs as <-. injection Hb as <-.
    destruct (H (MONDAY + 13 * HOUR, MONDAY + 13 * HOUR + 30 * MINUTE))
      as (x & Hin & Hx).
    + vm_compute. tauto.
    + vm_compute in Hin, Hx.
      destruct Hin as [<- | []]. discriminate Hx.
Qed.

(** C6, amended.  Every candidate lasts the requested duration cut down
    to whole seconds, so exactly the requested duration when that is a
    whole number of seconds.  The candidates are, in order, one for each
    of the first three free segments that can hold the duration,
    anchored at the segment's start as [iso] writes it. *)
Theorem suggest_times_slots (p : params) (s : suggestion) :
  suggest_times p = Some s ->
  (forall c, In c (candidates s) ->
     snd c - fst c = duration_of p - duration_of p mod SECOND) /\
  (duration_of p mod SECOND = 0 ->
     forall c, In c (candidates s) -> snd c - fst c = duration_of p) /\
  exists blocks,
    free_blocks p = Some blocks /\
    candidates s
    = map (slot_at (duration_of p))
          (firstn 3 (long_enough (duration_of p)
                                 (free_segments (busy p) blocks))).
Proof.
  intros (blocks & Hb & Hc)%suggest_times_candidates.
  assert (Hcut : forall c, In c (candidates s) ->
            snd c - fst c = duration_of p - duration_of p mod SECOND).
  { intros c Hin. rewrite Hc in Hin.
    apply in_map_iff in Hin as (x & <- & _). cbn [slot_at fst snd].
    rewrite (iso_add_whole _ _ (iso_is_whole (fst x))). unfold iso. ring. }
  split; [exact Hcut |]. split.
  - intros Hwhole c Hin. rewrite (Hcut c Hin), Hwhole. ring.
  - now exists blocks.
Qed.

Lemma suggest_times_slots_witness :
  suggest_times week_request = Some week_suggestion /\
  forall c, In c (candidates week_suggestion) ->
            snd c - fst c
            = duration_of week_request - duration_of week_request mod SECOND.
Proof.
  assert (H : suggest_times week_request = Some week_suggestion)
    by (vm_compute; reflexivity).
  split; [exact H |].
  exact (proj1 (suggest_times_slots week_request week_suggestion H)).
Defined.

(** C7 as stated fails: with a busy block written backwards the
    candidates come out as 13:00, 15:00, 14:00. *)
Lemma backwards_block_breaks_order :
  ~ (forall (p : params) (s : suggestion),
       suggest_times p = Some s ->
       (List.length (candidates s) <= 3)%nat /\ chronological (candidates s)).
Proof.
  intros H.
  destruct (suggest_times backwards_request) as [s |] eqn:Hs;
    [| vm_compute in Hs; discriminate].
  destruct (H backwards_request s Hs) as [_ Hc].
  vm_compute in Hs. injection Hs as <-. cbn [candidates] in Hc.
  inversion Hc as [| ? ? Hc' _]; subst.
  inversion Hc' as [| ? ? _ Hall]; subst.
  inversion Hall as [| ? ? Hle _]; subst.
  cbn [fst] in Hle. vm_compute in Hle. now apply Hle.
Qed.

(** C7, amended.  At most three candidates are returned.  They are the
    first three of the slots of all free segments that can hold the
    duration; when no busy block ends before it starts, those slots, and
    so the candidates, are in non-decreasing start order. *)
Theorem suggest_times_first_three (p : params) (s : suggestion) :
  suggest_times p = Some s ->
  (List.length (candidates s) <= 3)%nat /\
  exists blocks,
    free_blocks p = Some blocks /\
    let slots := map (slot_at (duration_of p))
                     (long_enough (duration_of p)
                                  (free_segments (busy p) blocks)) in
    candidates s = firstn 3 slots /\
    (Forall proper (busy p) ->
       chronological slots /\ chronological (candidates s)).
Proof.
  intros (blocks & Hb & Hc)%suggest_times_candidates.
  rewrite <- firstn_map in Hc. split.
  - rewrite Hc. apply firstn_le_length.
  - exists blocks. split; [exact Hb |]. cbv zeta. split; [exact Hc |].
    intros Hproper.
    assert (Hall : chronological
                     (map (slot_at (duration_of p))
                          (long_enough (duration_of p)
                                       (free_segments (busy p) blocks)))).
    { apply slots_chronological. unfold long_enough.
      apply sorted_filter. now apply free_segments_chronological. }
    split; [exact Hall |]. rewrite Hc. now apply sorted_firstn.
Qed.

Lemma suggest_times_first_three_witness :
  suggest_times week_request = Some week_suggestion /\
  (List.length (candidates week_suggestion) <= 3)%nat.
Proof.
  assert (H : suggest_times week_request = Some week_suggestion)
    by (vm_compute; reflexivity).
  split; [exact H |].
  exact (proj1 (suggest_times_first_three week_request week_suggestion H)).
Defined.

(** C10 as stated fails: for a meeting of minus thirty minutes in the
    window from 13:00 to 17:00 the candidate runs from 13:00 back to
    12:30, which is before the window starts. *)
Lemma negative_duration_leaves_window :
  ~ (forall (p : params) (s : suggestion),
       window_start p mod SECOND = 0 -> window_end p mod SECOND = 0 ->
       Forall whole (busy p) ->
       suggest_times p = Some s ->
       forall c, In c (candidates s) ->
         window_start p <= fst c <= window_end p /\
         window_start p <= snd c <= window_end p).
Proof.
  intros H.
  destruct (suggest_times negative_request) as [s |] eqn:Hs;
    [| vm_compute in Hs; discriminate].
  assert (Hb : Forall whole (busy negative_request))
    by (repeat constructor).
  specialize (H negative_request s eq_refl eq_refl Hb Hs).
  vm_compute in Hs. injection Hs as <-.
  destruct (H (MONDAY + 13 * HOUR, MONDAY + 12 * HOUR + 30 * MINUTE)
              ltac:(left; reflexivity)) as [_ [Hlo _]].
  vm_compute in Hlo. now apply Hlo.
Qed.

(** C10, amended.  When the window boundaries and the busy blocks fall
    on whole seconds and the requested duration is not negative, every
    candidate starts no earlier than the window, ends no earlier than it
    starts and no later than the window, so every instant of the
    candidate is an instant of the window; and the candidate is apart
    from every busy block: the two share no instant. *)
Theorem suggest_times_within_window (p : params) (s : suggestion) :
  window_start p mod SECOND = 0 -> window_end p mod SECOND = 0 ->
  Forall whole (busy p) ->
  0 <= duration_of p ->
  suggest_times p = Some s ->
  forall c, In c (candidates s) ->
    (window_start p <= fst c /\ fst c <= snd c /\ snd c <= window_end p) /\
    (forall t, covers c t -> covers (window_start p, window_end p) t) /\
    forall b, In b (busy p) ->
      apart c b /\ forall t, ~ (covers c t /\ covers b t).
Proof.
  intros Hws Hwe Hbusy Hd (blocks & Hb & Hc)%suggest_times_candidates c Hin.
  rewrite Hc in Hin. apply in_map_iff in Hin as (x & <- & Hx).
  apply in_firstn in Hx. unfold long_enough in Hx.
  apply filter_In in Hx as [Hx [Hlong Hfit]%andb_true_iff].
  apply Z.leb_le in Hlong, Hfit.
  rewrite free_segments_subtract_from in Hx.
  apply free_blocks_ok in Hb as [_ Hok].
  assert (Hwhole : whole x).
  { eapply Forall_forall; [| exact Hx].
    apply subtract_from_whole; [exact Hbusy |].
    eapply Forall_impl; [| exact Hok]. now intros y (_ & Hy & _). }
  destruct (subtract_from_inside _ _ _ Hx) as (block & Hblock & Hinside).
  rewrite Forall_forall in Hok.
  destruct (Hok block Hblock) as (_ & _ & Hlo & Hhi).
  rewrite (iso_whole _ Hws) in Hlo. rewrite (iso_whole _ Hwe) in Hhi.
  destruct Hwhole as [Hx1 Hx2]. unfold slot_at.
  rewrite (iso_whole _ Hx1) in *. rewrite (iso_whole _ Hx2) in Hfit.
  cbn [fst snd]. unfold inside in Hinside.
  pose proof (iso_le (fst x + duration_of p)) as Hend.
  pose proof (iso_mono (fst x) (fst x + duration_of p) ltac:(lia)) as Hfwd.
  rewrite (iso_whole _ Hx1) in Hfwd.
  split; [lia |]. split; [unfold covers; cbn [fst snd]; lia |].
  intros b Hbin.
  assert (Ha : apart (fst x, iso (fst x + duration_of p)) b).
  { pose proof (subtract_from_apart _ _ _ _ Hx Hbin) as Hab.
    unfold apart in *. cbn [fst snd]. lia. }
  split; [exact Ha | intros t; apply apart_no_common_instant; exact Ha].
Qed.

Lemma suggest_times_within_window_witness :
  (window_start week_request mod SECOND = 0 /\
   window_end week_request mod SECOND = 0 /\
   Forall whole (busy week_request) /\
   0 <= duration_of week_request /\
   suggest_times week_request = Some week_suggestion /\
   In (MONDAY + 13 * HOUR, MONDAY + 13 * HOUR + 30 * MINUTE)
      (candidates week_suggestion)) /\
  window_start week_request <= MONDAY + 13 * HOUR /\
  MONDAY + 13 * HOUR <= MONDAY + 13 * HOUR + 30 * MINUTE /\
  MONDAY + 13 * HOUR + 30 * MINUTE <= window_end week_request.
Proof.
  assert (H : suggest_times week_request = Some week_suggestion)
    by (vm_compute; reflexivity).
  assert (Hb : Forall whole (busy week_request))
    by (repeat constructor).
  assert (Hin : In (MONDAY + 13 * HOUR, MONDAY + 13 * HOUR + 30 * MINUTE)
                   (candidates week_suggestion))
    by (left; reflexivity).
  assert (Hs : window_start week_request mod SECOND = 0)
    by (vm_compute; reflexivity).
  assert (He : window_end week_request mod SECOND = 0)
    by (vm_compute; reflexivity).
  assert (Hd : 0 <= duration_of week_request)
    by (vm_compute; discriminate).
  split; [exact (conj Hs (conj He (conj Hb (conj Hd (conj H Hin))))) |].
  exact (proj1 (suggest_times_within_window
                  week_request week_suggestion Hs He Hb Hd H _ Hin)).
Defined.

(** * Tool orchestration *)

Section Detection.

Variable json_loads : string -> decoded.
Variable json_dumps : value -> string.
Variable SYSTEM_PROMPT : string.
Variable call_llm : list message -> failure + string.
Variables get_availability suggest_times create_event : tool.

Local Abbreviation parse := (maybe_parse_tool_call json_loads).
Local Abbreviation run :=
  (chat json_loads json_dumps SYSTEM_PROMPT call_llm
        get_availability suggest_times create_event).
Local Abbreviation hand_over :=
  (dispatch json_dumps call_llm get_availability suggest_times create_event).

Lemma maybe_parse_tool_call_some (text : string) (obj : dict) :
  parse text = inr (Some obj) <->
  startswith_brace (strip text) = true /\
  json_loads (strip text) = Decoded (JObject obj) /\
  contains "tool" obj = true /\ contains "args" obj = true.
Proof.
  unfold maybe_parse_tool_call.
  destruct (startswith_brace (strip text)); cbn [negb].
  2: { split; [discriminate | intros [? _]; discriminate]. }
  destruct (json_loads (strip text)) as [[| | | | | members] | |];
    try (split; [discriminate | intros (_ & ? & _); discriminate]).
  destruct (contains "tool" members && contains "args" members) eqn:E.
  - apply andb_true_iff in E as [E1 E2]. split.
    + intros [= <-]. auto.
    + intros (_ & [= <-] & _). reflexivity.
  - split; [discriminate |].
    intros (_ & [= <-] & E1 & E2). rewrite E1, E2 in E. discriminate.
Qed.

(** The replies that are returned as they are: no opening brace, text
    that is not JSON, a value that is no object, an object without
    [tool] or without [args]. *)
Lemma maybe_parse_tool_call_none (text : string) :
  parse text = inr None <->
  startswith_brace (strip text) = false \/
  json_loads (strip text) = JSONDecodeError \/
  exists v,
    json_loads (strip text) = Decoded v /\
    forall obj, v = JObject obj ->
                contains "tool" obj && contains "args" obj = false.
Proof.
  unfold maybe_parse_tool_call.
  destruct (startswith_brace (strip text)); cbn [negb];
    [| split; [intros _; now left | reflexivity]].
  destruct (json_loads (strip text)) as [v | | e].
  - assert (Hv : forall r : failure + option dict,
               (r = inr None <->
                forall obj, v = JObject obj ->
                  contains "tool" obj && contains "args" obj = false) ->
               r = inr None <->
               true = false \/ Decoded v = JSONDecodeError \/
               exists v', Decoded v = Decoded v' /\
                 forall obj, v' = JObject obj ->
                   contains "tool" obj && contains "args" obj = false).
    { intros r Hr. rewrite Hr. split.
      - intros H. right. right. exists v. auto.
      - intros [H | [H | (v' & [= <-] & H)]]; [discriminate.. | exact H]. }
    destruct v as [| | | | | members]; apply Hv;
      try (split; [intros _ obj Hobj; discriminate Hobj | reflexivity]).
    destruct (contains "tool" members && contains "args" members) eqn:E.
    + split; [discriminate |]. intros H. specialize (H _ eq_refl).
      congruence.
    + split; [intros _ obj [= <-]; exact E | reflexivity].
  - split; [intros _; right; left; reflexivity | reflexivity].
  - split; [discriminate |].
    intros [H | [H | (v & H & _)]]; discriminate H.
Qed.

(** The decoder raised another exception. *)
Lemma maybe_parse_tool_call_raises (text : string) (e : failure) :
  parse text = inl e <->
  startswith_brace (strip text) = true /\
  exists msg, json_loads (strip text) = OtherError msg /\ e = LoadsError msg.
Proof.
  unfold maybe_parse_tool_call.
  destruct (startswith_brace (strip text)); cbn [negb].
  2: { split; [discriminate | intros [? _]; discriminate]. }
  destruct (json_loads (strip text)) as [[| | | | | members] | | msg];
    try (split; [discriminate | intros (_ & ? & ? & _); discriminate]).
  - destruct (contains "tool" members && contains "args" members);
      (split; [discriminate | intros (_ & ? & ? & _); discriminate]).
  - split.
    + intros [= <-]. eauto.
    + intros (_ & msg' & [= <-] & ->). reflexivity.
Qed.

Lemma contains_get (k : string) (d : dict) :
  contains k d = true <-> exists v, get k d = Some v.
Proof.
  induction d as [| [k' v'] d IH]; cbn [contains get].
  - split; [discriminate | intros [? ?]; discriminate].
  - destruct (String.eqb k k'); cbn [orb]; [| exact IH].
    split; eauto.
Qed.

(** A detected call is a non-empty dict, so [not tool_call] is false. *)
Lemma chat_detected (user_id message first : string) (obj : dict) :
  call_llm (opening SYSTEM_PROMPT message) = inr first ->
  parse first = inr (Some obj) ->
  run user_id message
  = hand_over (opening SYSTEM_PROMPT message) user_id obj.
Proof.
  intros Hfirst Hobj. unfold chat. fold (opening SYSTEM_PROMPT message).
  rewrite Hfirst, Hobj.
  apply maybe_parse_tool_call_some in Hobj as (_ & _ & Htool & _).
  destruct obj; [discriminate | reflexivity].
Qed.

Lemma chat_plain (user_id message first : string) :
  call_llm (opening SYSTEM_PROMPT message) = inr first ->
  parse first = inr None ->
  run user_id message
  = (ChatOut first, [LLMCall (opening SYSTEM_PROMPT message)]).
Proof.
  intros Hfirst Hnone. unfold chat. fold (opening SYSTEM_PROMPT message).
  now rewrite Hfirst, Hnone.
Qed.

Lemma chat_loads_error (user_id message first : string) (e : failure) :
  call_llm (opening SYSTEM_PROMPT message) = inr first ->
  parse first = inl e ->
  run user_id message
  = (Raised e, [LLMCall (opening SYSTEM_PROMPT message)]).
Proof.
  intros Hfirst He. unfold chat. fold (opening SYSTEM_PROMPT message).
  now rewrite Hfirst, He.
Qed.

Lemma run_tool_dispatched messages name func args :
  dispatched (snd (run_tool json_dumps call_llm messages name func args)).
Proof.
  unfold run_tool, dispatched. exists name, args.
  destruct (func args); [cbn; auto |].
  destruct (call_llm _); cbn; auto.
Qed.

(** The reply after a tool round trip is never empty. *)
Lemma run_tool_reply_not_empty messages name func args reply trace :
  run_tool json_dumps call_llm messages name func args
  = (ChatOut reply, trace) ->
  reply <> EmptyString.
Proof.
  unfold run_tool. destruct (func args); [discriminate |].
  destruct (call_llm _) as [| final]; [discriminate |].
  intros [= <- _]. destruct final; discriminate.
Qed.

(** A reply that [chat] returns after calling a tool is never empty. *)
Lemma chat_reply_after_tool_not_empty user_id message reply trace :
  run user_id message = (ChatOut reply, trace) ->
  dispatched trace -> reply <> EmptyString.
Proof.
  unfold chat. fold (opening SYSTEM_PROMPT message).
  destruct (call_llm (opening SYSTEM_PROMPT message)) as [| first];
    [discriminate |].
  assert (Hplain : forall r : string,
             (ChatOut r, [LLMCall (opening SYSTEM_PROMPT message)])
             = (ChatOut reply, trace) ->
             dispatched trace -> reply <> EmptyString).
  { intros r [= _ <-] (n & a & [Hin | []]). discriminate Hin. }
  destruct (parse first) as [e | [[| member obj] |]]; try apply Hplain;
    [discriminate |].
  unfold dispatch.
  destruct (get "tool" (member :: obj)) as [name |]; [| discriminate].
  destruct (match get "args" (member :: obj) with
            | Some a => a
            | None => JObject []
            end); try discriminate.
  destruct name; try discriminate.
  destruct (registry_get _ _); [| discriminate].
  intros H _. eapply run_tool_reply_not_empty. exact H.
Qed.

(** [setdefault] supplies the organizer only when the key is absent. *)
Lemma setdefault_absent (k : string) (v : value) (d : dict) :
  contains k d = false -> get k (setdefault k v d) = Some v.
Proof.
  unfold setdefault. intros H. rewrite H.
  induction d as [| [k' v'] d IH]; cbn [set get contains] in *.
  - now rewrite String.eqb_refl.
  - destruct (String.eqb k k') eqn:E; [discriminate |].
    cbn [get]. rewrite E. now apply IH.
Qed.

Lemma setdefault_present (k : string) (v : value) (d : dict) :
  contains k d = true -> setdefault k v d = d.
Proof. unfold setdefault. now intros ->. Qed.

Lemma opening_not_dispatched (messages : list message) :
  ~ dispatched [LLMCall messages].
Proof. intros (name & args & [Hin | []]). discriminate Hin. Qed.

(** The names of the specification are the keys of the registry. *)
Lemma known_tool_registered (name : string) :
  known_tool name
  = match registry_get
            name (TOOL_REGISTRY get_availability suggest_times create_event)
    with
    | Some _ => true
    | None => false
    end.
Proof.
  unfold known_tool, TOOL_REGISTRY. cbn [existsb registry_get].
  destruct (String.eqb name "get_availability"); [reflexivity |].
  destruct (String.eqb name "suggest_times"); [reflexivity |].
  destruct (String.eqb name "create_event"); reflexivity.
Qed.

Lemma registry_get_in (name : string) (func : tool)
      (r : list (string * tool)) :
  registry_get name r = Some func -> In (name, func) r.
Proof.
  induction r as [| [k f] r IH]; cbn [registry_get]; [discriminate |].
  destruct (String.eqb_spec name k) as [-> | _].
  - intros [= ->]. now left.
  - intros H. right. now apply IH.
Qed.

(** What becomes of a detected call, by the values under [args] and
    [tool]. *)
Lemma dispatch_table (messages : list message) (user_id : string)
      (obj : dict) (name args : value) :
  get "tool" obj = Some name -> get "args" obj = Some args ->
  let outcome := hand_over messages user_id obj in
  if is_object args then
    if names_known_tool name then
      exists n a func,
        name = JString n /\ args = JObject a /\
        In (n, func)
           (TOOL_REGISTRY get_availability suggest_times create_event) /\
        let a' := setdefault "organizer_user_id" (JString user_id) a in
        outcome = run_tool json_dumps call_llm messages n func a' /\
        In (ToolCall n a') (snd outcome)
    else if hashable name
         then outcome = (Raised (UnknownTool name), [LLMCall messages])
         else outcome = (Raised TypeError, [LLMCall messages])
  else outcome = (Raised AttributeError, [LLMCall messages]).
Proof.
  intros Htool Hargs. cbv zeta. unfold dispatch. rewrite Htool, Hargs.
  destruct args as [| | | | | a]; try reflexivity. cbn [is_object].
  destruct name as [| | | n | |]; try reflexivity.
  cbn [names_known_tool hashable]. rewrite known_tool_registered.
  destruct (registry_get n _) as [func |] eqn:Hreg; [| reflexivity].
  exists n, a, func. split; [reflexivity |]. split; [reflexivity |].
  split; [now apply registry_get_in |]. cbv zeta.
  split; [reflexivity |].
  unfold run_tool. destruct (func _); [cbn; auto |].
  destruct (call_llm _); cbn; auto.
Qed.

(** A tool is called exactly for the replies that the rule of the
    specification describes. *)
Lemma chat_dispatched_per_spec (user_id message first : string) :
  call_llm (opening SYSTEM_PROMPT message) = inr first ->
  dispatched (snd (run user_id message)) <->
  tool_call_per_spec json_loads first = true.
Proof.
  intros Hfirst. unfold tool_call_per_spec.
  destruct (parse first) as [e | [obj |]] eqn:Hparse.
  - rewrite (chat_loads_error _ _ _ _ Hfirst Hparse).
    apply maybe_parse_tool_call_raises in Hparse as (-> & msg & -> & _).
    split; [intros H; now apply opening_not_dispatched in H | discriminate].
  - rewrite (chat_detected _ _ _ _ Hfirst Hparse).
    apply maybe_parse_tool_call_some in Hparse
      as (-> & -> & (name & Htool)%contains_get & (args & Hargs)%contains_get).
    pose proof (dispatch_table (opening SYSTEM_PROMPT message) user_id
                               obj name args Htool Hargs) as Htable.
    cbv zeta in Htable. rewrite Htool, Hargs. cbn [andb].
    destruct args as [| | | | | a]; cbn [is_object] in Htable;
      try (rewrite Htable; split;
           [intros H; now apply opening_not_dispatched in H
           | destruct name; discriminate]).
    destruct name as [| | | n | |];
      cbn [names_known_tool hashable] in Htable;
      try (rewrite Htable; split;
           [intros H; now apply opening_not_dispatched in H | discriminate]).
    destruct (known_tool n).
    + destruct Htable as (n' & a' & func & _ & _ & _ & _ & Hin).
      split; [reflexivity | intros _; red; eauto].
    + rewrite Htable. split;
        [intros H; now apply opening_not_dispatched in H | discriminate].
  - rewrite (chat_plain _ _ _ Hfirst Hparse).
    split; [intros H; now apply opening_not_dispatched in H |].
    intros [Hbrace Hrest]%andb_true_iff. exfalso.
    destruct (json_loads (strip first)) as [[| | | | | obj] | |] eqn:Hloads;
      try discriminate Hrest.
    destruct (get "tool" obj) as [[| | | n | |] |] eqn:Htool;
      try discriminate Hrest.
    destruct (get "args" obj) as [[| | | | | a] |] eqn:Hargs;
      try discriminate Hrest.
    assert (Hsome : parse first = inr (Some obj)).
    { apply maybe_parse_tool_call_some.
      repeat split; [assumption.. | |]; apply contains_get; eauto. }
    congruence.
Qed.

End Detection.

(** C3 as stated fails: a reply naming a tool outside the registry is
    not a tool call by the rule of the specification, yet it is not
    returned as the reply: the request fails with an unknown-tool error.
    The reply is [{"tool":"cancel_event","args":{}}], which the sample
    decoder reads as [json.loads] does. *)
Lemma unknown_tool_is_not_plain_text :
  ~ (forall (dumps : value -> string) (prompt : string)
            (llm : list message -> failure + string) (g s c : tool)
            (user_id message first : string),
       llm (opening prompt message) = inr first ->
       tool_call_per_spec loads first = false ->
       chat loads dumps prompt llm g s c user_id message
       = (ChatOut first, [LLMCall (opening prompt message)])).
Proof.
  intros H.
  specialize (H (fun _ => EmptyString) EmptyString
                (scripted_llm reply_unknown_tool EmptyString)
                (fun _ => inr JNull) (fun _ => inr JNull) (fun _ => inr JNull)
                "alice"%string "hello"%string reply_unknown_tool
                eq_refl eq_refl).
  vm_compute in H. discriminate H.
Qed.

(** C3, amended.  A tool is called exactly for the replies that the
    specification describes: once trimmed, the reply starts with an
    opening brace and is read by [json.loads] as an object with a
    registered name under [tool] and an object under [args].
    [maybe_parse_tool_call] detects more: every object with a [tool] key
    and an [args] key, whatever their values.  A reply that is not
    detected (no opening brace, malformed JSON, no object, a key missing)
    is returned as it is, unless [json.loads] raises another exception
    than [JSONDecodeError], which fails the request.  A detected reply is
    never returned: when [args] is no object the request fails with
    [AttributeError]; otherwise the tool is called when [tool] is a
    registered name, the request fails as an unknown tool when [tool] is
    another string, a number, a boolean or [null], and with [TypeError]
    when [tool] is a list or an object.  ["Sure, I can help."] is not
    detected; the call with [tool] and [args] is; the one without [args]
    is not. *)
Theorem tool_call_detection
        (json_loads : string -> decoded) (dumps : value -> string)
        (prompt : string) (llm : list message -> failure + string)
        (g s c : tool) (user_id message first : string) :
  llm (opening prompt message) = inr first ->
  let m := opening prompt message in
  let detected := maybe_parse_tool_call json_loads first in
  let outcome := chat json_loads dumps prompt llm g s c user_id message in
  (dispatched (snd outcome) <-> tool_call_per_spec json_loads first = true) /\
  (forall obj,
     detected = inr (Some obj) <->
     startswith_brace (strip first) = true /\
     json_loads (strip first) = Decoded (JObject obj) /\
     contains "tool" obj = true /\ contains "args" obj = true) /\
  (detected = inr None <->
     startswith_brace (strip first) = false \/
     json_loads (strip first) = JSONDecodeError \/
     exists v,
       json_loads (strip first) = Decoded v /\
       forall obj, v = JObject obj ->
                   contains "tool" obj && contains "args" obj = false) /\
  (detected = inr None -> outcome = (ChatOut first, [LLMCall m])) /\
  (forall e,
     detected = inl e ->
     outcome = (Raised e, [LLMCall m]) /\
     exists msg,
       json_loads (strip first) = OtherError msg /\ e = LoadsError msg) /\
  (forall obj,
     detected = inr (Some obj) ->
     exists name args,
       get "tool" obj = Some name /\ get "args" obj = Some args /\
       if is_object args then
         if names_known_tool name then
           exists n a func,
             name = JString n /\ args = JObject a /\
             In (n, func) (TOOL_REGISTRY g s c) /\
             let a' := setdefault "organizer_user_id" (JString user_id) a in
             outcome = run_tool dumps llm m n func a' /\
             In (ToolCall n a') (snd outcome)
         else if hashable name
              then outcome = (Raised (UnknownTool name), [LLMCall m])
              else outcome = (Raised TypeError, [LLMCall m])
       else outcome = (Raised AttributeError, [LLMCall m])) /\
  maybe_parse_tool_call json_loads "Sure, I can help." = inr None /\
  (json_loads reply_call = Decoded (JObject call_object) ->
   maybe_parse_tool_call json_loads reply_call = inr (Some call_object)) /\
  (json_loads reply_without_args = Decoded (JObject object_without_args) ->
   maybe_parse_tool_call json_loads reply_without_args = inr None).
Proof.
  intros Hfirst m detected outcome. subst m detected outcome.
  split; [apply chat_dispatched_per_spec; exact Hfirst |].
  split; [intros obj; apply maybe_parse_tool_call_some |].
  split; [exact (maybe_parse_tool_call_none json_loads first) |].
  split; [intros Hnone; eapply chat_plain; eassumption |].
  split.
  { intros e He. split; [eapply chat_loads_error; eassumption |].
    now apply maybe_parse_tool_call_raises in He as (_ & He). }
  split.
  { intros obj Hobj.
    rewrite (chat_detected _ _ _ _ _ _ _ _ _ _ _ Hfirst Hobj).
    apply maybe_parse_tool_call_some in Hobj
      as (_ & _ & (name & Htool)%contains_get & (args & Hargs)%contains_get).
    exists name, args. split; [exact Htool |]. split; [exact Hargs |].
    now apply dispatch_table. }
  split; [reflexivity |].
  split; intros Hloads; unfold maybe_parse_tool_call.
  - change (strip reply_call) with reply_call.
    now rewrite Hloads.
  - change (strip reply_without_args) with reply_without_args.
    now rewrite Hloads.
Qed.

Lemma tool_call_detection_witness :
  scripted_llm reply_call "Booked." (opening EmptyString "book a slot")
  = inr reply_call /\
  maybe_parse_tool_call loads reply_call = inr (Some call_object).
Proof.
  split; [reflexivity |].
  pose proof (tool_call_detection
                loads (fun _ => EmptyString) EmptyString
                (scripted_llm reply_call "Booked.")
                (fun _ => inr JNull) (fun _ => inr JNull)
                (fun _ => inr JNull)
                "alice" "book a slot" reply_call eq_refl) as H.
  cbv zeta in H.
  exact (proj1 (proj2 (proj2 (proj2 (proj2 (proj2 (proj2 (proj2 H)))))))
               eq_refl).
Defined.

(** C8 on the code: when the model's first reply is the empty string,
    [chat] returns the empty string; the placeholder is applied only to
    the reply that follows a tool. *)
Theorem empty_first_reply_is_returned
        (dumps : value -> string) (prompt : string) (final : string)
        (g s c : tool) (user_id message : string) :
  chat loads dumps prompt (scripted_llm EmptyString final) g s c
       user_id message
  = (ChatOut EmptyString, [LLMCall (opening prompt message)]).
Proof. reflexivity. Qed.

(** C9 on the code: the model names [mallory] as the organizer, the
    request comes from [alice], and the tool is called with [mallory]. *)
Theorem model_identity_reaches_tool
        (dumps : value -> string) (prompt : string) (final : string)
        (g s c : tool) (message : string) :
  exists outcome rest,
    chat loads dumps prompt (scripted_llm reply_with_identity final) g s c
         "alice" message
    = (outcome,
       LLMCall (opening prompt message)
       :: ToolCall "get_availability"
                   [("organizer_user_id"%string, JString "mallory")]
       :: rest).
Proof.
  assert (Hobj : maybe_parse_tool_call loads reply_with_identity
                 = inr (Some [("tool"%string, JString "get_availability");
                              ("args"%string,
                               JObject [("organizer_user_id"%string,
                                         JString "mallory")])]))
    by reflexivity.
  rewrite (chat_detected loads dumps prompt
             (scripted_llm reply_with_identity final) g s c
             "alice" message reply_with_identity _ eq_refl Hobj).
  unfold dispatch. cbn [get String.eqb Ascii.eqb Bool.eqb].
  unfold setdefault.
  cbn [contains String.eqb Ascii.eqb Bool.eqb orb
       TOOL_REGISTRY registry_get].
  unfold run_tool.
  match goal with |- context [g ?a] => destruct (g a) end; [eauto |].
  match goal with
  | |- context [scripted_llm ?a ?b ?m] => destruct (scripted_llm a b m)
  end; eauto.
Qed.

(** * Attendees, title and participants *)

Section Strip.

Lemma lstrip_eq (s : string) :
  lstrip s
  = match s with
    | String a r =>
        if isspace a then lstrip r
        else
          match r with
          | String b r2 =>
              if isspace2 a b then lstrip r2
              else
                match r2 with
                | String c r3 => if isspace3 a b c then lstrip r3 else s
                | EmptyString => s
                end
          | EmptyString => s
          end
    | EmptyString => s
    end.
Proof. destruct s; reflexivity. Qed.

Lemma lstrip_skip (s : string) :
  lstrip s = match skip s with Some r => lstrip r | None => s end.
Proof.
  etransitivity; [apply lstrip_eq |]. unfold skip.
  destruct s as [| a [| b [| c r]]];
    repeat match goal with
           | |- context [if ?b then _ else _] => destruct b
           end; reflexivity.
Qed.

Lemma skip_shorter (s r : string) :
  skip s = Some r -> (String.length r < String.length s)%nat.
Proof.
  destruct s as [| a [| b [| c s]]]; cbn [skip];
    repeat match goal with
           | |- context [if ?b then _ else _] => destruct b
           end; intros [= <-]; cbn [String.length]; lia.
Qed.

(** Induction along the white space at the head of a text. *)
Lemma skip_ind (P : string -> Prop) :
  (forall s, skip s = None -> P s) ->
  (forall s r, skip s = Some r -> P r -> P s) ->
  forall s, P s.
Proof.
  intros Hnone Hsome s.
  remember (String.length s) as n eqn:Hn. revert s Hn.
  induction n as [n IH] using lt_wf_ind. intros s ->.
  destruct (skip s) as [r |] eqn:E; [| now apply Hnone].
  apply (Hsome s r E). apply (IH (String.length r)); [| reflexivity].
  now apply skip_shorter.
Qed.

Lemma skip_app (s r w : string) :
  skip s = Some r -> skip (s ++ w) = Some (r ++ w)%string.
Proof.
  destruct s as [| a [| b [| c s]]]; cbn [skip append];
    repeat match goal with
           | |- context [if ?b then _ else _] => destruct b
           end; intros [= <-]; reflexivity.
Qed.

Lemma skip_starts (c : ascii) (r : string) :
  skip (String c r) <> None -> starts_space c = true.
Proof.
  unfold starts_space. cbn [skip].
  destruct (isspace c); [reflexivity |]. cbn [orb].
  destruct r as [| b [| d r]]; try (intros H; now destruct H).
  - unfold isspace2. destruct (Ascii.eqb c "194"); [reflexivity |].
    cbn [andb orb]. intros H; now destruct H.
  - unfold isspace2, isspace3.
    destruct (Ascii.eqb c "194"), (Ascii.eqb c "225"),
      (Ascii.eqb c "226"), (Ascii.eqb c "227"); cbn [andb orb];
      try reflexivity.
    intros H; now destruct H.
Qed.

Lemma starts_not_continues (c : ascii) :
  starts_space c = true -> continues_space c = false.
Proof.
  destruct c as [[] [] [] [] [] [] [] []]; vm_compute;
    first [reflexivity | discriminate].
Qed.

Lemma isspace2_continues (a b : ascii) :
  isspace2 a b = true -> continues_space b = true.
Proof.
  unfold isspace2. intros [_ [H | H]%orb_true_iff]%andb_true_iff;
    apply Ascii.eqb_eq in H; subst b; reflexivity.
Qed.

Lemma general_punctuation_continues (c : ascii) :
  general_punctuation_space c = true -> continues_space c = true.
Proof.
  destruct c as [[] [] [] [] [] [] [] []]; vm_compute;
    first [reflexivity | discriminate].
Qed.

Lemma isspace3_continues (a b c : ascii) :
  isspace3 a b c = true ->
  continues_space b = true /\ continues_space c = true.
Proof.
  unfold isspace3. rewrite !orb_true_iff, !andb_true_iff.
  intros [[[[[_ Hb] Hc] | [[_ Hb] Hc]] | [[_ Hb] Hc]] | [[_ Hb] Hc]];
    apply Ascii.eqb_eq in Hb; subst b;
    (split; [reflexivity |]);
    first [now apply general_punctuation_continues
          | apply Ascii.eqb_eq in Hc; subst c; reflexivity].
Qed.

Lemma append_empty (s : string) : (s ++ EmptyString)%string = s.
Proof. induction s as [| c r IH]; [reflexivity |]. cbn. now rewrite IH. Qed.

Lemma append_assoc (a b c : string) :
  ((a ++ b) ++ c)%string = (a ++ b ++ c)%string.
Proof. induction a as [| x a IH]; [reflexivity |]. cbn. now rewrite IH. Qed.

(** White space that follows cannot complete a character begun before. *)
Lemma skip_app_none (s w : string) :
  skip s = None -> s <> EmptyString ->
  w = EmptyString \/ skip w <> None ->
  skip (s ++ w) = None.
Proof.
  intros Hs Hne [-> | Hw].
  { now rewrite append_empty. }
  destruct w as [| d w]; [now destruct Hw |].
  apply skip_starts, starts_not_continues in Hw.
  destruct s as [| a [| b [| c s]]]; [contradiction | | |];
    cbn [skip append] in *.
  - destruct (isspace a); [discriminate |].
    destruct (isspace2 a d) eqn:E2.
    { apply isspace2_continues in E2. congruence. }
    destruct w as [| e w]; [reflexivity |].
    destruct (isspace3 a d e) eqn:E3; [| reflexivity].
    apply isspace3_continues in E3 as [E3 _]. congruence.
  - destruct (isspace a); [discriminate |].
    destruct (isspace2 a b); [discriminate |].
    destruct (isspace3 a b d) eqn:E3; [| reflexivity].
    apply isspace3_continues in E3 as [_ E3]. congruence.
  - destruct (isspace a); [discriminate |].
    destruct (isspace2 a b); [discriminate |].
    destruct (isspace3 a b c); [discriminate | reflexivity].
Qed.

Lemma skip_lstrip (s : string) : skip (lstrip s) = None.
Proof.
  induction s as [s Hs | s r Hs IH] using skip_ind; rewrite lstrip_skip, Hs;
    assumption.
Qed.

Lemma blank_skip (s r : string) : skip s = Some r -> blank s = blank r.
Proof. intros H. unfold blank. now rewrite (lstrip_skip s), H. Qed.

Lemma blank_unskipped (s : string) :
  skip s = None -> blank s = true -> s = EmptyString.
Proof.
  intros H. unfold blank. rewrite lstrip_skip, H.
  destruct s; [reflexivity | discriminate].
Qed.

Lemma lstrip_blank (w : string) : blank w = true -> lstrip w = EmptyString.
Proof. unfold blank. destruct (lstrip w); [reflexivity | discriminate]. Qed.

(** A blank text is empty or starts with white space. *)
Lemma blank_starts (w : string) :
  blank w = true -> w = EmptyString \/ skip w <> None.
Proof.
  intros Hw. destruct (skip w) eqn:E; [right; discriminate |].
  left. now apply blank_unskipped.
Qed.

Lemma lstrip_app_blank (w t : string) :
  blank w = true -> lstrip (w ++ t) = lstrip t.
Proof.
  induction w as [w Hw | w r Hw IH] using skip_ind; intros Hb.
  - now rewrite (blank_unskipped w Hw Hb).
  - rewrite lstrip_skip, (skip_app _ _ _ Hw). apply IH.
    now rewrite <- (blank_skip _ _ Hw).
Qed.

Lemma blank_app (w t : string) :
  blank w = true -> blank (w ++ t) = blank t.
Proof. intros H. unfold blank. now rewrite lstrip_app_blank. Qed.

(** What comes before a blank end of a blank text is blank. *)
Lemma blank_app_inv (t w : string) :
  blank w = true -> blank (t ++ w) = true -> blank t = true.
Proof.
  intros Hw. induction t as [t Ht | t r Ht IH] using skip_ind; intros H.
  - destruct t as [| c t]; [reflexivity |]. exfalso.
    assert (Hnone : skip (String c t ++ w) = None).
    { apply skip_app_none; [exact Ht | discriminate | now apply blank_starts]. }
    apply (blank_unskipped _ Hnone) in H. discriminate H.
  - rewrite (blank_skip _ _ Ht). apply IH.
    now rewrite <- (blank_skip _ _ (skip_app _ _ w Ht)).
Qed.

Lemma blank_app_r (t w : string) :
  blank w = true -> blank (t ++ w) = blank t.
Proof.
  intros Hw. destruct (blank t) eqn:Ht.
  - now rewrite blank_app.
  - destruct (blank (t ++ w)) eqn:E; [| reflexivity].
    apply (blank_app_inv _ _ Hw) in E. congruence.
Qed.

Lemma lstrip_app (t w : string) :
  blank w = true -> blank t = false ->
  lstrip (t ++ w) = (lstrip t ++ w)%string.
Proof.
  intros Hw. induction t as [t Ht | t r Ht IH] using skip_ind; intros Hb.
  - rewrite (lstrip_skip t), Ht, lstrip_skip.
    rewrite skip_app_none; [reflexivity | exact Ht | | now apply blank_starts].
    intros ->. discriminate Hb.
  - rewrite (lstrip_skip t), Ht, lstrip_skip, (skip_app _ _ _ Ht).
    apply IH. now rewrite <- (blank_skip _ _ Ht).
Qed.

Lemma rstrip_blank (w : string) : blank w = true -> rstrip w = EmptyString.
Proof. destruct w; [reflexivity |]. cbn [rstrip]. now intros ->. Qed.

Lemma rstrip_app_blank (t w : string) :
  blank w = true -> rstrip (t ++ w) = rstrip t.
Proof.
  intros Hw. induction t as [| c r IH]; [now apply rstrip_blank |].
  cbn [append rstrip]. rewrite IH.
  change (String c (r ++ w)) with (String c r ++ w)%string.
  now rewrite blank_app_r.
Qed.

(** What [rstrip] drops is blank. *)
Lemma rstrip_dropped (s : string) :
  exists w, blank w = true /\ s = (rstrip s ++ w)%string.
Proof.
  induction s as [| c r (w & Hw & IH)]; [now exists EmptyString |].
  cbn [rstrip]. destruct (blank (String c r)) eqn:E.
  - now exists (String c r).
  - exists w. split; [exact Hw |]. cbn [append]. now rewrite <- IH.
Qed.

Lemma blank_rstrip (s : string) : blank (rstrip s) = blank s.
Proof.
  destruct (rstrip_dropped s) as (w & Hw & Hs).
  rewrite Hs at 2. now rewrite blank_app_r.
Qed.

Lemma rstrip_idem (s : string) : rstrip (rstrip s) = rstrip s.
Proof.
  induction s as [| c r IH]; [reflexivity |].
  cbn [rstrip]. destruct (blank (String c r)) eqn:E; [reflexivity |].
  cbn [rstrip]. rewrite IH.
  assert (Hb : blank (String c (rstrip r)) = false).
  { destruct (rstrip_dropped r) as (w & Hw & Hr).
    rewrite <- (blank_app_r (String c (rstrip r)) w Hw). cbn [append].
    now rewrite <- Hr. }
  now rewrite Hb.
Qed.

Lemma skip_rstrip (t : string) : skip t = None -> skip (rstrip t) = None.
Proof.
  intros Ht. destruct (rstrip_dropped t) as (w & _ & Hw).
  destruct (skip (rstrip t)) as [r |] eqn:E; [| reflexivity].
  apply (skip_app _ _ w) in E. rewrite <- Hw in E. congruence.
Qed.

Lemma strip_idem (s : string) : strip (strip s) = strip s.
Proof.
  unfold strip.
  rewrite (lstrip_skip (rstrip (lstrip s))), skip_rstrip by apply skip_lstrip.
  apply rstrip_idem.
Qed.

Lemma strip_rstrip (e : string) : strip e = e -> rstrip e = e.
Proof.
  intros H. rewrite <- H at 1. unfold strip.
  rewrite rstrip_idem. exact H.
Qed.

Lemma plain_not_blank (s e : string) :
  plain s = true -> blank e = false -> blank (s ++ e) = false.
Proof.
  intros Hs He. induction s as [| a s IH]; [exact He |].
  cbn [plain] in Hs. apply andb_true_iff in Hs as [Ha Hs].
  specialize (IH Hs). cbn [append].
  destruct (skip (String a (s ++ e))) as [r |] eqn:E.
  - rewrite (blank_skip _ _ E). cbn [skip] in E.
    destruct (isspace a); [now injection E as <- |].
    exfalso. destruct (s ++ e)%string as [| b [| c r2]]; try discriminate E.
    + unfold isspace2 in E. destruct (Ascii.eqb a "194"); discriminate.
    + unfold isspace2, isspace3 in E.
      destruct (Ascii.eqb a "194"), (Ascii.eqb a "225"),
        (Ascii.eqb a "226"), (Ascii.eqb a "227"); discriminate.
  - destruct (blank (String a (s ++ e))) eqn:Hb; [| reflexivity].
    apply (blank_unskipped _ E) in Hb. discriminate Hb.
Qed.

(** A trimmed, non-empty text does not end with white space: plain text
    put in front of it stays in place. *)
Lemma rstrip_app (s e : string) :
  plain s = true -> rstrip e = e -> e <> EmptyString ->
  rstrip (s ++ e) = (s ++ e)%string.
Proof.
  intros Hs He Hne.
  assert (Hb : blank e = false).
  { destruct e as [| c e]; [contradiction |]. cbn [rstrip] in He.
    destruct (blank (String c e)); [discriminate He | reflexivity]. }
  induction s as [| a s IH]; [exact He |].
  cbn [append rstrip].
  change (String a (s ++ e)) with (String a s ++ e)%string.
  rewrite (plain_not_blank _ _ Hs Hb). cbn [append].
  cbn [plain] in Hs. apply andb_true_iff in Hs as [_ Hs].
  now rewrite IH.
Qed.

Lemma strip_padded (before text after : string) :
  blank before = true -> blank after = true ->
  strip (before ++ text ++ after) = strip text.
Proof.
  intros Hb Ha. unfold strip. rewrite (lstrip_app_blank _ _ Hb).
  destruct (blank text) eqn:Ht.
  - rewrite (lstrip_blank text Ht), lstrip_blank; [reflexivity |].
    now rewrite blank_app.
  - rewrite (lstrip_app _ _ Ha Ht). now apply rstrip_app_blank.
Qed.

End Strip.

Section Emails.

Lemma add_email_accepted (emails : list string) (s : string) :
  Forall accepted emails -> Forall accepted (add_email emails s).
Proof.
  intros H. unfold add_email.
  destruct (negb (is_empty (strip s)) && contains_at (strip s)) eqn:E;
    [| exact H].
  apply andb_true_iff in E as [Hne Hat].
  apply Forall_app. split; [exact H |]. constructor; [| constructor].
  split; [apply strip_idem |]. split; [| exact Hat].
  intros Heq. rewrite Heq in Hne. discriminate Hne.
Qed.

Lemma add_email_on_accepted (emails : list string) (e : string) :
  accepted e -> add_email emails e = emails ++ [e].
Proof.
  intros (Hs & Hne & Hat). unfold add_email. rewrite Hs, Hat.
  destruct e; [contradiction | reflexivity].
Qed.

Lemma fold_add_email_accepted (l emails : list string) :
  Forall accepted emails -> Forall accepted (fold_left add_email l emails).
Proof.
  revert emails. induction l as [| s l IH]; intros emails H; [exact H |].
  cbn [fold_left]. apply IH. now apply add_email_accepted.
Qed.

Lemma seen_has_in (seen : list string) (e : string) :
  seen_has seen e = true <-> In e seen.
Proof.
  unfold seen_has. rewrite existsb_exists. split.
  - intros (x & Hin & Heq). apply String.eqb_eq in Heq. now subst.
  - intros Hin. exists e. split; [exact Hin | apply String.eqb_refl].
Qed.

(** The loop keeps [result] free of duplicates and within [seen], and
    adds exactly the addresses not seen before. *)
Lemma dedupe_spec (emails : list string) :
  forall seen result,
    NoDup result -> (forall e, In e result -> In e seen) ->
    NoDup (dedupe emails seen result) /\
    (forall e, In e (dedupe emails seen result) <->
               In e result \/ (In e emails /\ ~ In e seen)).
Proof.
  induction emails as [| a emails IH]; intros seen result Hnd Hsub.
  - cbn [dedupe]. split; [exact Hnd |]. intros e. cbn [In]. tauto.
  - cbn [dedupe]. destruct (seen_has seen a) eqn:Hseen.
    + apply seen_has_in in Hseen.
      destruct (IH seen result Hnd Hsub) as [H1 H2]. split; [exact H1 |].
      intros e. rewrite H2. cbn [In]. split; [tauto |].
      intros [H | [[<- | H] Hn]]; tauto.
    + assert (Hna : ~ In a seen).
      { intros H. apply seen_has_in in H. congruence. }
      destruct (IH (a :: seen) (result ++ [a])) as [H1 H2].
      * apply NoDup_app; [exact Hnd | repeat constructor; intros [] |].
        intros x Hx [<- | []]. apply Hna, Hsub, Hx.
      * intros e [H | [<- | []]]%in_app_or; [right; auto | left; auto].
      * split; [exact H1 |]. intros e. rewrite H2, in_app_iff.
        cbn [In]. split.
        -- intros [[H | [<- | []]] | [H Hn]]; auto.
           right. split; [auto | tauto].
        -- intros [H | [[<- | H] Hn]]; auto.
           destruct (string_dec a e) as [<- | Hne]; [auto |].
           right. split; [exact H | tauto].
Qed.

Lemma dedupe_nodup (emails : list string) :
  forall seen result,
    NoDup emails -> (forall e, In e emails -> ~ In e seen) ->
    dedupe emails seen result = result ++ emails.
Proof.
  induction emails as [| a emails IH]; intros seen result Hnd Hnew.
  - cbn. now rewrite app_nil_r.
  - cbn [dedupe]. inversion Hnd as [| ? ? Ha Hnd']; subst.
    destruct (seen_has seen a) eqn:Hseen.
    + apply seen_has_in in Hseen. exfalso. apply (Hnew a); [now left | auto].
    + rewrite IH; [now rewrite <- app_assoc | exact Hnd' |].
      intros e He [<- | Hin]; [contradiction |].
      apply (Hnew e); [now right | exact Hin].
Qed.

Lemma fold_add_email_on_accepted (l : list string) :
  Forall accepted l ->
  forall emails, fold_left add_email l emails = emails ++ l.
Proof.
  induction 1 as [| e l He Hl IH]; intros emails; cbn [fold_left].
  - now rewrite app_nil_r.
  - rewrite add_email_on_accepted by exact He.
    now rewrite IH, <- app_assoc.
Qed.

End Emails.

Section Attendees.

Variable nonzero : string -> bool.

Lemma add_email_value_accepted (emails emails' : list string) (v : value) :
  add_email_value nonzero emails v = Some emails' ->
  Forall accepted emails -> Forall accepted emails'.
Proof.
  unfold add_email_value. intros Hv H.
  destruct v; try (destruct (truthy nonzero _); [discriminate |]);
    injection Hv as <-; try exact H.
  now apply add_email_accepted.
Qed.

Lemma add_items_accepted (items : list value) :
  forall emails emails',
    add_items nonzero emails items = Some emails' ->
    Forall accepted emails -> Forall accepted emails'.
Proof.
  induction items as [| item items IH]; intros emails emails' Hi H.
  - injection Hi as <-. exact H.
  - cbn [add_items] in Hi. destruct item; try (eapply IH; eassumption).
    + eapply IH; [exact Hi |]. now apply add_email_accepted.
    + destruct (add_email_value nonzero emails (email_field members))
        as [emails1 |] eqn:E; [| discriminate].
      eapply IH; [exact Hi |]. eapply add_email_value_accepted; eassumption.
Qed.

Lemma collect_accepted (v : value) (emails : list string) :
  collect nonzero v = Some emails -> Forall accepted emails.
Proof.
  destruct v; cbn [collect]; intros H;
    try (injection H as <-; constructor).
  - injection H as <-. apply fold_add_email_accepted. constructor.
  - eapply add_items_accepted; [exact H | constructor].
  - eapply add_email_value_accepted; [exact H | constructor].
Qed.

Lemma add_items_strings (l : list string) :
  forall emails,
    add_items nonzero emails (map JString l)
    = Some (fold_left add_email l emails).
Proof.
  induction l as [| s l IH]; intros emails; [reflexivity |].
  cbn [map add_items fold_left]. apply IH.
Qed.

End Attendees.

Lemma normalize_attendees_accepted
      (nonzero : string -> bool) (attendees_raw : value) (l : list string) :
  _normalize_attendees nonzero attendees_raw = Some l ->
  NoDup l /\ Forall accepted l /\
  exists emails,
    collect nonzero attendees_raw = Some emails /\
    forall e, In e l <-> In e emails.
Proof.
  unfold _normalize_attendees.
  destruct (collect nonzero attendees_raw) as [emails |] eqn:E;
    [| discriminate].
  intros [= <-].
  destruct (dedupe_spec emails [] [] (NoDup_nil _) (fun e H => H))
    as [Hnd Hin].
  assert (Hmem : forall e, In e (dedupe emails [] []) <-> In e emails).
  { intros e. rewrite Hin. cbn [In]. tauto. }
  split; [exact Hnd |]. split; [| exists emails; auto].
  pose proof (collect_accepted _ _ _ E) as Hacc.
  rewrite Forall_forall in *. intros e He. now apply Hacc, Hmem.
Qed.

(** X1.  Whatever [_normalize_attendees] returns holds no address twice,
    and every address in it is trimmed, not empty and contains an [@]. *)
Theorem normalize_attendees_clean
        (nonzero : string -> bool) (attendees_raw : value) (l : list string) :
  _normalize_attendees nonzero attendees_raw = Some l ->
  NoDup l /\ Forall accepted l.
Proof.
  intros H. destruct (normalize_attendees_accepted _ _ _ H) as (? & ? & _).
  split; assumption.
Qed.

Lemma normalize_attendees_clean_witness :
  _normalize_attendees plain_nonzero (JString "ann@x.org; bob@y.org, ann@x.org")
  = Some ["ann@x.org"; "bob@y.org"]%string /\
  NoDup ["ann@x.org"; "bob@y.org"]%string.
Proof.
  split; [reflexivity |].
  exact (proj1 (normalize_attendees_clean
                  plain_nonzero
                  (JString "ann@x.org; bob@y.org, ann@x.org") _ eq_refl)).
Defined.

(** X2.  Normalizing is idempotent: the list returned, given back as a
    list of strings, comes out unchanged. *)
Theorem normalize_attendees_idempotent
        (nonzero : string -> bool) (attendees_raw : value) (l : list string) :
  _normalize_attendees nonzero attendees_raw = Some l ->
  _normalize_attendees nonzero (JArray (map JString l)) = Some l.
Proof.
  intros H. destruct (normalize_attendees_accepted nonzero _ _ H)
    as (Hnd & Hacc & _).
  unfold _normalize_attendees. cbn [collect].
  rewrite add_items_strings, fold_add_email_on_accepted by exact Hacc.
  cbn [app]. rewrite dedupe_nodup; [reflexivity | exact Hnd | auto].
Qed.

Lemma normalize_attendees_idempotent_witness :
  _normalize_attendees plain_nonzero
                       (JString "ann@x.org; bob@y.org, ann@x.org")
  = Some ["ann@x.org"; "bob@y.org"]%string /\
  _normalize_attendees plain_nonzero
                       (JArray [JString "ann@x.org"; JString "bob@y.org"])
  = Some ["ann@x.org"; "bob@y.org"]%string.
Proof.
  split; [reflexivity |].
  exact (normalize_attendees_idempotent
           plain_nonzero (JString "ann@x.org; bob@y.org, ann@x.org")
           ["ann@x.org"; "bob@y.org"]%string eq_refl).
Defined.

(** X3.  A string of addresses separated by commas or semicolons is
    normalized like the list of its pieces. *)
Theorem normalize_attendees_string_as_list
        (nonzero : string -> bool) (raw : string) :
  _normalize_attendees nonzero (JString raw)
  = _normalize_attendees nonzero (JArray (map JString (pieces raw))).
Proof.
  unfold _normalize_attendees. cbn [collect].
  now rewrite add_items_strings.
Qed.

Section Rejection.

Variable nonzero : string -> bool.

Lemma add_email_value_none (emails : list string) (v : value) :
  add_email_value nonzero emails v = None <->
  true_non_string nonzero v = true.
Proof.
  unfold add_email_value, true_non_string.
  destruct v; try (destruct (truthy nonzero _));
    split; intros H; try discriminate H; reflexivity.
Qed.

Lemma add_items_none (items : list value) :
  forall emails,
    add_items nonzero emails items = None <->
    existsb (bad_item nonzero) items = true.
Proof.
  induction items as [| item items IH]; intros emails.
  - cbn. split; discriminate.
  - cbn [add_items existsb]. destruct item; cbn [bad_item orb]; try apply IH.
    destruct (add_email_value nonzero emails (email_field members))
      as [emails' |] eqn:E.
    + destruct (true_non_string nonzero (email_field members)) eqn:Hb.
      * apply (add_email_value_none emails) in Hb. congruence.
      * cbn [orb]. apply IH.
    + apply add_email_value_none in E. rewrite E. cbn [orb]. tauto.
Qed.

End Rejection.

(** X4.  [_normalize_attendees] raises exactly when the input is an
    object, or a list holding an object, whose [email] is a true value
    that is not a string; strings, lists of strings and every other
    value are always normalized. *)
Theorem normalize_attendees_raises
        (nonzero : string -> bool) (attendees_raw : value) :
  _normalize_attendees nonzero attendees_raw = None <->
  rejected nonzero attendees_raw = true.
Proof.
  unfold _normalize_attendees.
  destruct (collect nonzero attendees_raw) as [emails |] eqn:E.
  - split; [discriminate |]. intros Hr. exfalso.
    destruct attendees_raw; cbn [rejected collect] in *; try discriminate Hr.
    + apply (add_items_none nonzero items []) in Hr. congruence.
    + unfold bad_item in Hr.
      apply (add_email_value_none nonzero []) in Hr. congruence.
  - split; [intros _ | reflexivity].
    destruct attendees_raw; cbn [rejected collect] in *; try discriminate E.
    + now apply (add_items_none nonzero items []).
    + now apply (add_email_value_none nonzero []).
Qed.

Section Participants.

Lemma fold_add_email_filter (l : list string) :
  forall emails,
    fold_left add_email l emails
    = emails ++
      filter contains_at
             (map strip (filter (fun p => negb (is_empty (strip p))) l)).
Proof.
  induction l as [| p l IH]; intros emails; cbn [fold_left filter map].
  - now rewrite app_nil_r.
  - rewrite IH. unfold add_email.
    destruct (is_empty (strip p)) eqn:Hp; cbn [negb andb]; [reflexivity |].
    cbn [map filter]. destruct (contains_at (strip p)).
    + now rewrite <- app_assoc.
    + reflexivity.
Qed.

Lemma participants_trimmed (raw : string) :
  Forall (fun p => strip p = p /\ p <> EmptyString) (participants_of raw).
Proof.
  unfold participants_of. apply Forall_forall. intros p Hp.
  apply in_map_iff in Hp as (q & <- & Hq). apply filter_In in Hq as [_ Hq].
  split; [apply strip_idem |]. intros Heq. rewrite Heq in Hq. discriminate.
Qed.

End Participants.

(** X5.  The participants read from a string are trimmed and not empty,
    and the attendees normalized from the same string are exactly the
    participants that contain an [@]. *)
Theorem attendees_are_participants_with_at
        (nonzero : string -> bool) (raw : string) :
  Forall (fun p => strip p = p /\ p <> EmptyString) (participants_of raw) /\
  exists l,
    _normalize_attendees nonzero (JString raw) = Some l /\
    forall e, In e l <->
              In e (participants_of raw) /\ contains_at e = true.
Proof.
  split; [apply participants_trimmed |].
  destruct (_normalize_attendees nonzero (JString raw)) as [l |] eqn:E;
    [| discriminate E].
  exists l. split; [reflexivity |].
  destruct (normalize_attendees_accepted _ _ _ E)
    as (_ & _ & emails & Hc & Hmem).
  cbn [collect] in Hc. injection Hc as <-.
  intros e. rewrite Hmem, fold_add_email_filter. cbn [app].
  rewrite filter_In. reflexivity.
Qed.

Section Title.

Lemma fallback_title_trimmed (l : list string) :
  Forall accepted l -> strip (fallback_title l) = fallback_title l.
Proof.
  intros H. destruct H as [| e l (Hs & Hne & _) _]; [reflexivity |].
  unfold fallback_title, strip.
  change (lstrip ("Meeting with " ++ e))
    with ("Meeting with " ++ e)%string.
  apply rstrip_app; [reflexivity | now apply strip_rstrip | exact Hne].
Qed.

Lemma fallback_title_not_empty (l : list string) :
  fallback_title l <> EmptyString.
Proof. destruct l; discriminate. Qed.

End Title.

(** X6.  With normalized attendees: a title that is missing or empty is
    replaced by [Meeting with <first attendee>], or [Meeting] when there
    is no attendee; and the title of the event is empty exactly when the
    given title is not empty but only white space. *)
Theorem event_title_fallback
        (title : option string) (attendee_emails : list string) :
  Forall accepted attendee_emails ->
  (title = None \/ title = Some EmptyString ->
     event_title title attendee_emails = fallback_title attendee_emails) /\
  (event_title title attendee_emails = EmptyString <->
     exists t, title = Some t /\ t <> EmptyString /\ strip t = EmptyString).
Proof.
  intros Hacc.
  pose proof (fallback_title_trimmed _ Hacc) as Htrim.
  pose proof (fallback_title_not_empty attendee_emails) as Hne.
  unfold event_title. split.
  - intros [-> | ->]; exact Htrim.
  - destruct title as [[| c t] |]; rewrite ?Htrim.
    + split; [contradiction |]. intros (t & [= <-] & Ht & _). contradiction.
    + split.
      * intros H. exists (String c t). repeat split; [discriminate | exact H].
      * intros (t' & [= <-] & _ & H). exact H.
    + split; [contradiction | intros (t & Ht & _); discriminate].
Qed.

Lemma event_title_fallback_witness :
  Forall accepted ["ann@x.org"%string] /\
  event_title None ["ann@x.org"%string] = "Meeting with ann@x.org"%string.
Proof.
  assert (H : Forall accepted ["ann@x.org"%string]).
  { repeat constructor. discriminate. }
  split; [exact H |].
  exact (proj1 (event_title_fallback None ["ann@x.org"%string] H)
               (or_introl eq_refl)).
Defined.

(** * More on rolling forward *)

Section RollForward.

Lemma roll_forward_shift (start_dt end_dt now_local : Z) :
  exists k,
    0 <= k /\
    roll_forward start_dt end_dt now_local
    = (start_dt + k * WEEK, end_dt + k * WEEK) /\
    now_local < end_dt + k * WEEK.
Proof.
  pose proof (weeks_to_jump_bracket end_dt now_local) as Hw.
  unfold roll_forward. fold (weeks_to_jump end_dt now_local).
  destruct (Z.leb_spec end_dt now_local).
  - exists (weeks_to_jump end_dt now_local).
    assert (0 < WEEK) by reflexivity.
    split; [nia |]. split; [| lia].
    change WEEK with (7 * DAY). f_equal; ring.
  - exists 0. split; [lia |]. split; [f_equal; ring | lia].
Qed.

End RollForward.

(** X7.  [create_event] refuses a slot exactly when its end is not after
    its start: rolling forward never repairs nor breaks a slot. *)
Theorem create_event_refuses (start_dt end_dt now_local : Z) :
  create_event start_dt end_dt now_local = None <-> end_dt <= start_dt.
Proof.
  unfold create_event.
  destruct (roll_forward_shift start_dt end_dt now_local)
    as (k & _ & -> & _).
  destruct (Z.leb_spec (end_dt + k * WEEK) (start_dt + k * WEEK)).
  - split; [lia | reflexivity].
  - split; [discriminate | lia].
Qed.

(** X8.  A slot that [create_event] commits ends after now and after its
    start, lasts as long as the slot given, and is the slot given moved
    by a whole number of weeks. *)
Theorem create_event_commits_future
        (start_dt end_dt now_local : Z) (slot : Z * Z) :
  create_event start_dt end_dt now_local = Some slot ->
  fst slot < snd slot /\ now_local < snd slot /\
  snd slot - fst slot = end_dt - start_dt /\
  exists k, 0 <= k /\
            fst slot = start_dt + k * WEEK /\ snd slot = end_dt + k * WEEK.
Proof.
  unfold create_event.
  destruct (roll_forward_shift start_dt end_dt now_local)
    as (k & Hk & -> & Hnow).
  destruct (Z.leb_spec (end_dt + k * WEEK) (start_dt + k * WEEK));
    [discriminate |].
  intros [= <-]. cbn [fst snd].
  repeat split; try lia. exists k. auto.
Qed.

Lemma create_event_commits_future_witness :
  create_event (13 * HOUR) (13 * HOUR + 30 * MINUTE) (10 * DAY)
  = Some (13 * HOUR + 2 * WEEK, 13 * HOUR + 30 * MINUTE + 2 * WEEK) /\
  10 * DAY < 13 * HOUR + 30 * MINUTE + 2 * WEEK.
Proof.
  split; [reflexivity |].
  exact (proj1 (proj2 (create_event_commits_future
                         (13 * HOUR) (13 * HOUR + 30 * MINUTE) (10 * DAY)
                         _ eq_refl))).
Defined.

(** X9.  Rolling forward is idempotent: a slot already rolled forward
    is left as it is. *)
Theorem roll_forward_idempotent (start_dt end_dt now_local : Z) :
  roll_forward (fst (roll_forward start_dt end_dt now_local))
               (snd (roll_forward start_dt end_dt now_local)) now_local
  = roll_forward start_dt end_dt now_local.
Proof.
  destruct (roll_forward_shift start_dt end_dt now_local)
    as (k & _ & -> & Hnow).
  cbn [fst snd]. unfold roll_forward.
  destruct (Z.leb_spec (end_dt + k * WEEK) now_local); [lia | reflexivity].
Qed.

(** X10.  The window loop of [get_availability] is idempotent: the
    window it returns, given again at the same time, is returned as it
    is. *)
Theorem roll_window_idempotent (now_utc : Z) (ws we : datetime) :
  roll_window now_utc (fst (roll_window now_utc ws we))
              (snd (roll_window now_utc ws we))
  = roll_window now_utc ws we.
Proof.
  destruct (roll_window_rolled now_utc ws we)
    as (k & _ & _ & _ & _ & _ & Hnow & _).
  destruct (roll_window now_utc ws we) as [ws' we']. cbn [fst snd] in *.
  simp roll_window.
  destruct (Z_le_dec (instant we') now_utc); [lia | reflexivity].
Qed.

(** * The interval helpers *)

(** X11.  [clamp_to_window] is the intersection of the interval with the
    window: when it returns a segment, the segment is not empty and
    covers exactly the instants of both; it returns nothing exactly when
    the two share no instant. *)
Theorem clamp_to_window_intersection (start end_ wstart wend : Z) :
  (forall x, clamp_to_window start end_ wstart wend = Some x ->
     fst x < snd x /\
     forall t, covers x t <->
               covers (start, end_) t /\ covers (wstart, wend) t) /\
  (clamp_to_window start end_ wstart wend = None <->
     forall t, ~ (covers (start, end_) t /\ covers (wstart, wend) t)).
Proof.
  unfold clamp_to_window, covers. cbn [fst snd].
  destruct (Z.ltb_spec (Z.max start wstart) (Z.min end_ wend)) as [H | H].
  - split.
    + intros x [= <-]. cbn [fst snd]. split; [exact H | intros t; lia].
    + split; [discriminate |]. intros Hno. exfalso.
      apply (Hno (Z.max start wstart)). lia.
  - split; [discriminate |]. split; [intros _ t; lia | reflexivity].
Qed.

(** X12.  [iso] rounds an instant down to the whole second: the result
    is a whole number of seconds, at most the instant and less than a
    second before it; rounding twice changes nothing and rounding keeps
    the order of instants. *)
Theorem iso_rounds_down (t u : Z) :
  iso t mod SECOND = 0 /\ iso t <= t < iso t + SECOND /\
  iso (iso t) = iso t /\ (t <= u -> iso t <= iso u).
Proof.
  split; [apply iso_is_whole |]. split.
  - unfold iso. pose proof (Z.mod_pos_bound t SECOND eq_refl). lia.
  - split; [apply iso_idem | apply iso_mono].
Qed.

(** * More on slot suggestion *)

Section WorkHours.

Lemma day_number_unique (a q : Z) :
  DAY * q <= a < DAY * q + DAY -> a / DAY = q.
Proof.
  intros H. symmetry. apply (Z.div_unique a DAY q (a - DAY * q)).
  - left. lia.
  - ring.
Qed.

Lemma iso_same_day (t : Z) : iso t / DAY = t / DAY.
Proof.
  apply day_number_unique.
  pose proof (Z.mul_div_le t DAY eq_refl) as Hlo.
  pose proof (Z.mul_succ_div_gt t DAY eq_refl) as Hhi.
  pose proof (iso_mono _ _ Hlo) as Hiso.
  rewrite (iso_whole _ (whole_day_is_whole _)) in Hiso.
  pose proof (iso_le t). lia.
Qed.

Lemma day_allowed_same_day (days : list string) (a b : Z) :
  a / DAY = b / DAY -> day_allowed days a = day_allowed days b.
Proof.
  intros H. unfold day_allowed, strftime_a. now rewrite H.
Qed.

Lemma valid_time_bounds (h m : Z) :
  valid_time h m = true -> 0 <= h * HOUR + m * MINUTE < DAY.
Proof.
  unfold valid_time. intros E.
  repeat rewrite andb_true_iff in E. repeat rewrite Z.leb_le in E.
  unfold DAY, HOUR. change MINUTE with 60000000. lia.
Qed.

Lemma replace_hm_valid (t h m : Z) :
  replace_hm t h m
  = if valid_time h m
    then Some (t - t mod DAY + h * HOUR + m * MINUTE + t mod MINUTE)
    else None.
Proof. reflexivity. Qed.

Lemma replace_hms0_valid (t h m : Z) :
  replace_hms0 t h m
  = if valid_time h m
    then Some (t - t mod DAY + h * HOUR + m * MINUTE)
    else None.
Proof. reflexivity. Qed.

(** A cursor at [hs:hm] reads as a day number and a time of day. *)
Lemma on_start_reading (hs hm c : Z) :
  on_start hs hm c ->
  c mod MINUTE = 0 /\ (c + DAY) mod MINUTE = 0 /\ c mod SECOND = 0 /\
  c - c mod DAY = DAY * (c / DAY).
Proof.
  unfold on_start. intros H.
  assert (Hday : c - c mod DAY = DAY * (c / DAY))
    by (rewrite (Z.mod_eq c DAY) by discriminate; ring).
  repeat split; [| | | exact Hday]; clear Hday;
    revert H; generalize (c / DAY); intros q ->.
  - replace (DAY * q + hs * HOUR + hm * MINUTE)
      with ((q * 1440 + hs * 60 + hm) * MINUTE)
      by (unfold DAY, HOUR; ring).
    apply Z.mod_mul. discriminate.
  - replace (DAY * q + hs * HOUR + hm * MINUTE + DAY)
      with ((q * 1440 + hs * 60 + hm + 1440) * MINUTE)
      by (unfold DAY, HOUR; ring).
    apply Z.mod_mul. discriminate.
  - replace (DAY * q + hs * HOUR + hm * MINUTE)
      with ((q * 86400 + hs * 3600 + hm * 60) * SECOND)
      by (unfold DAY, HOUR, MINUTE; ring).
    apply Z.mod_mul. discriminate.
Qed.

Lemma first_on_start (hs hm t c : Z) :
  replace_hms0 t hs hm = Some c ->
  valid_time hs hm = true /\ on_start hs hm c /\
  c = t - t mod DAY + hs * HOUR + hm * MINUTE.
Proof.
  rewrite replace_hms0_valid.
  destruct (valid_time hs hm) eqn:Hv; [| discriminate]. intros [= <-].
  split; [reflexivity |]. split; [| reflexivity].
  pose proof (valid_time_bounds _ _ Hv).
  assert (Hq : (t - t mod DAY + hs * HOUR + hm * MINUTE) / DAY = t / DAY).
  { apply day_number_unique.
    rewrite (Z.mod_eq t DAY) by discriminate. lia. }
  unfold on_start. rewrite Hq.
  rewrite (Z.mod_eq t DAY) by discriminate. ring.
Qed.

Lemma next_on_start (hs hm c next : Z) :
  on_start hs hm c -> replace_hm (c + DAY) hs hm = Some next ->
  on_start hs hm next.
Proof.
  intros Hc. rewrite replace_hm_valid.
  destruct (valid_time hs hm) eqn:Hv; [| discriminate]. intros [= <-].
  destruct (on_start_reading _ _ _ Hc) as (_ & -> & _ & _).
  pose proof (valid_time_bounds _ _ Hv).
  assert (Hq : (c + DAY - (c + DAY) mod DAY + hs * HOUR + hm * MINUTE + 0)
               / DAY = (c + DAY) / DAY).
  { apply day_number_unique.
    rewrite (Z.mod_eq (c + DAY) DAY) by discriminate. lia. }
  unfold on_start. rewrite Hq.
  rewrite (Z.mod_eq (c + DAY) DAY) by discriminate. ring.
Qed.

Variables wstart wend hs hm he hem : Z.
Variable days : list string.

(** The block of a day lies within the preferred hours of that day. *)
Lemma day_block_hours (c day_end : Z) (x : segment) :
  on_start hs hm c -> valid_time hs hm = true ->
  replace_hm c he hem = Some day_end ->
  In x (day_block wstart wend days c day_end) ->
  in_hours hs hm he hem days (c / DAY) x /\ valid_time he hem = true.
Proof.
  intros Hc Hvs. rewrite replace_hm_valid.
  destruct (valid_time he hem) eqn:Hve; [| discriminate]. intros [= <-].
  destruct (on_start_reading _ _ _ Hc) as (Hmin & _ & Hsec & Hday).
  rewrite Hmin, Hday.
  pose proof (valid_time_bounds _ _ Hvs) as Hs.
  pose proof (valid_time_bounds _ _ Hve) as He.
  unfold on_start in Hc. set (q := c / DAY) in *.
  set (day_end := DAY * q + he * HOUR + hem * MINUTE + 0).
  unfold day_block, clamp_to_window.
  destruct (c <? day_end); [| intros []].
  destruct (Z.ltb_spec (Z.max c wstart) (Z.min day_end wend)) as [Hlt |];
    [| intros []].
  destruct (day_allowed days (Z.max c wstart)) eqn:Hallowed; [| intros []].
  intros [<- | []]. split; [| reflexivity].
  unfold in_hours. cbn [fst snd].
  pose proof (iso_mono c (Z.max c wstart) ltac:(lia)) as Hlo.
  rewrite (iso_whole _ Hsec) in Hlo.
  pose proof (iso_le (Z.min day_end wend)) as Hhi.
  assert (Hq : Z.max c wstart / DAY = q).
  { apply day_number_unique. subst day_end. lia. }
  repeat split.
  - lia.
  - subst day_end. lia.
  - now rewrite iso_same_day.
  - rewrite <- Hallowed. apply day_allowed_same_day. apply iso_same_day.
Qed.

Lemma free_blocks_from_hours (day_cursor : Z) (blocks : list segment) :
  on_start hs hm day_cursor -> valid_time hs hm = true ->
  free_blocks_from wstart wend hs hm he hem days day_cursor = Some blocks ->
  Forall (fun x => (exists day, in_hours hs hm he hem days day x) /\
                   valid_time he hem = true) blocks.
Proof.
  revert blocks.
  funelim (free_blocks_from wstart wend hs hm he hem days day_cursor);
    intros blocks Hc Hvs Hblocks; try discriminate.
  - injection Hblocks as <-. constructor.
  - destruct (free_blocks_from wstart wend hs hm he hem _ next)
      as [rest |] eqn:Hrest; [| discriminate].
    injection Hblocks as <-.
    apply Forall_app. split.
    + apply Forall_forall. intros x Hx.
      match goal with
      | Hend : replace_hm day_cursor he hem = Some day_end |- _ =>
          destruct (day_block_hours _ _ _ Hc Hvs Hend Hx) as [Hin Hve]
      end.
      split; [eexists; exact Hin | exact Hve].
    + match goal with
      | IH : forall b, _ -> _ -> _ = Some b -> _,
        Hnext : replace_hm (day_cursor + DAY) hs hm = Some next |- _ =>
          apply (IH rest);
            [exact (next_on_start _ _ _ _ Hc Hnext) | exact Hvs
            | first [reflexivity | exact Hrest]]
      end.
Qed.

(** An empty or inverted window leaves no block. *)
Lemma free_blocks_from_empty_window (day_cursor : Z) (blocks : list segment) :
  wend <= wstart ->
  free_blocks_from wstart wend hs hm he hem days day_cursor = Some blocks ->
  blocks = [].
Proof.
  revert blocks.
  funelim (free_blocks_from wstart wend hs hm he hem days day_cursor);
    intros blocks Hw Hblocks; try discriminate.
  - now injection Hblocks as <-.
  - destruct (free_blocks_from wstart wend hs hm he hem _ next)
      as [rest |] eqn:Hrest; [| discriminate].
    injection Hblocks as <-.
    match goal with
    | IH : forall b, _ -> _ = Some b -> _ |- _ =>
        rewrite (IH rest Hw ltac:(first [reflexivity | exact Hrest]))
    end.
    rewrite app_nil_r. unfold day_block, clamp_to_window.
    destruct (_ <? _); [| reflexivity].
    destruct (Z.ltb_spec (Z.max day_cursor wstart) (Z.min day_end wend));
      [lia | reflexivity].
Qed.

(** With a valid start time the loop raises exactly when the end time is
    not valid and the loop body is entered. *)
Lemma free_blocks_from_none (day_cursor : Z) :
  valid_time hs hm = true ->
  free_blocks_from wstart wend hs hm he hem days day_cursor = None <->
  valid_time he hem = false /\ day_cursor < wend.
Proof.
  funelim (free_blocks_from wstart wend hs hm he hem days day_cursor);
    intros Hvs.
  - split; [discriminate | intros [_ ?]; lia].
  - split; [intros _ | reflexivity]. split; [| assumption].
    match goal with
    | H : replace_hm day_cursor he hem = None |- _ =>
        pose proof H as Hend
    end.
    rewrite replace_hm_valid in Hend.
    destruct (valid_time he hem); [discriminate Hend | reflexivity].
  - assert (Hve : valid_time he hem = true).
    { match goal with
      | H : replace_hm day_cursor he hem = Some _ |- _ =>
          pose proof H as Hend
      end.
      rewrite replace_hm_valid in Hend.
      destruct (valid_time he hem); [reflexivity | discriminate Hend]. }
    match goal with
    | IH : _ -> (_ = None <-> _) |- _ => specialize (IH Hvs)
    end.
    split; [| intros [Hf _]; congruence].
    destruct (free_blocks_from wstart wend hs hm he hem _ next);
      [discriminate |].
    intros _. exfalso.
    match goal with
    | IH : None = None <-> _ |- _ => destruct (proj1 IH eq_refl); congruence
    end.
  - exfalso.
    match goal with
    | H : replace_hm (day_cursor + DAY) hs hm = None |- _ =>
        pose proof H as Hnext
    end.
    rewrite replace_hm_valid, Hvs in Hnext. discriminate Hnext.
Qed.

End WorkHours.

Section MoreCandidates.

(** The slots of segments in chronological order do not overlap. *)
Lemma slots_precede (duration : Z) (l : list segment) :
  StronglySorted precedes l ->
  StronglySorted precedes
    (map (slot_at duration) (long_enough duration l)).
Proof.
  unfold long_enough.
  induction 1 as [| x l Hl IH Hx]; cbn [filter map]; [constructor |].
  destruct ((duration <=? snd x - fst x)
            && (iso (fst x) + duration <=? iso (snd x))) eqn:E;
    [| exact IH].
  apply andb_true_iff in E as [_ Hfit%Z.leb_le].
  cbn [map]. constructor; [exact IH |].
  rewrite Forall_forall in *. intros c (y & <- & Hy)%in_map_iff.
  apply filter_In in Hy as [Hy _]. specialize (Hx y Hy).
  unfold precedes, slot_at in *. cbn [fst snd].
  pose proof (iso_le (iso (fst x) + duration)).
  pose proof (iso_mono _ _ Hx). lia.
Qed.

(** Every candidate lies in one of the daily free blocks; it ends no
    earlier than it starts when the duration is not negative. *)
Lemma candidate_in_block (p : params) (s : suggestion) (c : segment) :
  suggest_times p = Some s -> In c (candidates s) ->
  exists blocks block,
    free_blocks p = Some blocks /\ In block blocks /\
    fst block <= fst c /\ fst c <= snd block /\ snd c <= snd block /\
    (0 <= duration_of p -> fst c <= snd c).
Proof.
  intros (blocks & Hb & Hc)%suggest_times_candidates Hin.
  rewrite Hc in Hin. apply in_map_iff in Hin as (x & <- & Hx).
  apply in_firstn in Hx. unfold long_enough in Hx.
  apply filter_In in Hx as [Hx [_ Hfit%Z.leb_le]%andb_true_iff].
  rewrite free_segments_subtract_from in Hx.
  destruct (free_blocks_ok _ _ Hb) as [_ Hok].
  assert (Hfwd : forward x).
  { eapply Forall_forall; [| exact Hx]. apply subtract_from_forward.
    eapply Forall_impl; [| exact Hok]. now intros y (Hy & _). }
  destruct (subtract_from_inside _ _ _ Hx) as (block & Hblock & Hinside).
  exists blocks, block. split; [exact Hb |]. split; [exact Hblock |].
  rewrite Forall_forall in Hok.
  destruct (Hok block Hblock) as (_ & [Hw1 Hw2] & _).
  unfold inside, forward in *. cbn [slot_at fst snd].
  pose proof (iso_mono _ _ (proj1 Hinside)) as Hlo.
  rewrite (iso_whole _ Hw1) in Hlo.
  pose proof (iso_le (iso (fst x) + duration_of p)) as Hend.
  pose proof (iso_le (fst x)). pose proof (iso_le (snd x)).
  repeat split; try lia.
  intros Hd. rewrite <- (iso_idem (fst x)) at 1. apply iso_mono. lia.
Qed.

Lemma free_blocks_hours (p : params) (blocks : list segment) :
  free_blocks p = Some blocks ->
  Forall (fun x => exists day,
            within_hours p day x /\
            snd x < DAY * day + DAY) blocks.
Proof.
  unfold free_blocks, within_hours.
  destruct (hours_of p) as [[hs hm] [he hem]].
  destruct (replace_hms0 (window_start p) hs hm) as [c |] eqn:Hc;
    [| discriminate].
  destruct (first_on_start _ _ _ _ Hc) as (Hvs & Hon & _).
  intros H. eapply Forall_impl;
    [| exact (free_blocks_from_hours _ _ _ _ _ _ _ _ _ Hon Hvs H)].
  intros x [(day & Hin) Hve]. exists day. split; [exact Hin |].
  pose proof (valid_time_bounds _ _ Hve).
  destruct Hin as (_ & Hhi & _). lia.
Qed.

End MoreCandidates.

(** X13.  When no busy block ends before it starts, the candidates do
    not overlap one another: each ends no later than the next starts. *)
Theorem candidates_do_not_overlap (p : params) (s : suggestion) :
  suggest_times p = Some s -> Forall proper (busy p) ->
  StronglySorted precedes (candidates s).
Proof.
  intros (blocks & Hb & Hc)%suggest_times_candidates Hproper.
  rewrite Hc, <- firstn_map. apply sorted_firstn.
  apply slots_precede. rewrite free_segments_subtract_from.
  apply subtract_from_sorted; [exact Hproper |].
  now destruct (free_blocks_ok _ _ Hb).
Qed.

Lemma candidates_do_not_overlap_witness :
  suggest_times week_request = Some week_suggestion /\
  Forall proper (busy week_request) /\
  StronglySorted precedes (candidates week_suggestion).
Proof.
  assert (H : suggest_times week_request = Some week_suggestion)
    by (vm_compute; reflexivity).
  assert (Hb : Forall proper (busy week_request)).
  { repeat constructor. unfold proper. cbn [fst snd]. discriminate. }
  split; [exact H |]. split; [exact Hb |].
  exact (candidates_do_not_overlap week_request week_suggestion H Hb).
Defined.

(** X14.  [suggest_times] raises when the preferred start time is not a
    time of day, and when the preferred end time is not one and the
    window reaches the start time of its first day.  It returns, without
    a candidate, when the start time is a time of day and the window
    ends by the start time of its first day: the end time is not looked
    at then. *)
Theorem suggest_times_raises (p : params) :
  (valid_time (fst (fst (hours_of p))) (snd (fst (hours_of p))) = false \/
   (valid_time (fst (snd (hours_of p))) (snd (snd (hours_of p))) = false /\
    first_cursor p < window_end p) ->
   suggest_times p = None) /\
  (valid_time (fst (fst (hours_of p))) (snd (fst (hours_of p))) = true ->
   window_end p <= first_cursor p ->
   suggest_times p = Some {| candidates := [];
                             out_window_start := iso (window_start p);
                             out_window_end := iso (window_end p) |}).
Proof.
  unfold suggest_times, free_blocks, first_cursor.
  destruct (hours_of p) as [[hs hm] [he hem]]. cbn [fst snd].
  rewrite replace_hms0_valid. split.
  - destruct (valid_time hs hm) eqn:Hvs; [| reflexivity].
    intros [Hf | Hf]; [discriminate |].
    match goal with
    | |- context [free_blocks_from ?a ?b ?c ?d ?e ?f ?g ?h] =>
        apply (free_blocks_from_none a b c d e f g h Hvs) in Hf
    end.
    now rewrite Hf.
  - intros -> Hw. simp free_blocks_from.
    destruct (Z_lt_dec _ _); [lia | reflexivity].
Qed.

(** A window that ends at 13:00 with preferred hours from 13:00 to 25:00
    is accepted; preferred hours that start at 24:00 are not. *)
Lemma suggest_times_raises_witness :
  let late := {| window_start := MONDAY + 9 * HOUR;
                 window_end := MONDAY + 13 * HOUR;
                 busy := []; duration_minutes := None;
                 hours := Some ((13, 0), (25, 0)); days := [] |} in
  let midnight := {| window_start := MONDAY + 9 * HOUR;
                     window_end := MONDAY + 13 * HOUR;
                     busy := []; duration_minutes := None;
                     hours := Some ((24, 0), (17, 0)); days := [] |} in
  suggest_times late
  = Some {| candidates := [];
            out_window_start := iso (window_start late);
            out_window_end := iso (window_end late) |} /\
  suggest_times midnight = None.
Proof.
  cbv zeta. split.
  - apply suggest_times_raises; [reflexivity |].
    vm_compute. discriminate.
  - apply suggest_times_raises. left. reflexivity.
Defined.

(** X15.  A window that ends at or before its start yields no
    candidate. *)
Theorem empty_window_has_no_candidate (p : params) (s : suggestion) :
  window_end p <= window_start p ->
  suggest_times p = Some s -> candidates s = [].
Proof.
  intros Hw (blocks & Hb & ->)%suggest_times_candidates.
  unfold free_blocks in Hb.
  destruct (hours_of p) as [[hs hm] [he hem]].
  destruct (replace_hms0 _ _ _) as [c |]; [| discriminate].
  now rewrite (free_blocks_from_empty_window _ _ _ _ _ _ _ _ _ Hw Hb).
Qed.

(** X16.  For every input with a duration that is not negative, each
    candidate lies within the window that [suggest_times] returns, ends
    no earlier than it starts, and lies within the preferred hours of a
    single day: it starts at or after the preferred start time of the
    day it starts on, ends at or before the preferred end time of that
    day, and that day is one of the preferred weekdays when any is
    given. *)
Theorem candidates_within_hours (p : params) (s : suggestion) :
  suggest_times p = Some s -> 0 <= duration_of p ->
  forall c, In c (candidates s) ->
    (out_window_start s <= fst c /\ fst c <= snd c /\
     snd c <= out_window_end s) /\
    exists day, within_hours p day c.
Proof.
  intros Hs Hd c Hin.
  destruct (candidate_in_block _ _ _ Hs Hin)
    as (blocks & block & Hb & Hblock & Hlo & Hmid & Hhi & Hfwd).
  specialize (Hfwd Hd).
  pose proof (free_blocks_ok _ _ Hb) as [_ Hok].
  pose proof (free_blocks_hours _ _ Hb) as Hhours.
  rewrite Forall_forall in Hok, Hhours.
  destruct (Hok block Hblock) as (_ & _ & Hws & Hwe).
  destruct (Hhours block Hblock) as (day & Hwithin & Hday).
  split.
  - unfold suggest_times in Hs. rewrite Hb in Hs. injection Hs as <-.
    cbn [out_window_start out_window_end]. lia.
  - exists day. unfold within_hours in *.
    destruct (hours_of p) as [[hs hm] [he hem]].
    destruct Hwithin as (H1 & H2 & H3 & H4). unfold in_hours.
    assert (Hq : fst c / DAY = day).
    { apply day_number_unique.
      pose proof (valid_time_bounds hs hm) as Hs'.
      pose proof (Z.mul_div_le (fst block) DAY eq_refl) as Hd'.
      rewrite H3 in Hd'. lia. }
    repeat split; try lia.
    rewrite <- H4. apply day_allowed_same_day. now rewrite Hq, H3.
Qed.

Lemma candidates_within_hours_witness :
  suggest_times week_request = Some week_suggestion /\
  0 <= duration_of week_request /\
  In (MONDAY + DAY + 15 * HOUR, MONDAY + DAY + 15 * HOUR + 30 * MINUTE)
     (candidates week_suggestion) /\
  out_window_start week_suggestion <= MONDAY + DAY + 15 * HOUR.
Proof.
  assert (H : suggest_times week_request = Some week_suggestion)
    by (vm_compute; reflexivity).
  assert (Hd : 0 <= duration_of week_request)
    by (vm_compute; discriminate).
  assert (Hin : In (MONDAY + DAY + 15 * HOUR,
                    MONDAY + DAY + 15 * HOUR + 30 * MINUTE)
                   (candidates week_suggestion))
    by (right; left; reflexivity).
  split; [exact H |]. split; [exact Hd |]. split; [exact Hin |].
  exact (proj1 (proj1 (candidates_within_hours
                         week_request week_suggestion H Hd _ Hin))).
Defined.

(** A window from Monday 17:00 back to Monday 13:00. *)
Lemma empty_window_has_no_candidate_witness :
  let p := {| window_start := MONDAY + 17 * HOUR;
              window_end := MONDAY + 13 * HOUR;
              busy := []; duration_minutes := None;
              hours := None; days := [] |} in
  let s := {| candidates := [];
              out_window_start := MONDAY + 17 * HOUR;
              out_window_end := MONDAY + 13 * HOUR |} in
  window_end p <= window_start p /\
  suggest_times p = Some s /\ candidates s = [].
Proof.
  cbv zeta.
  match goal with
  | |- ?a <= ?b /\ ?q = ?r /\ _ =>
      assert (Hw : a <= b) by (vm_compute; discriminate);
      assert (Hs : q = r) by (vm_compute; reflexivity)
  end.
  split; [exact Hw |]. split; [exact Hs |].
  exact (empty_window_has_no_candidate _ _ Hw Hs).
Defined.

(** * More on tool orchestration *)

(** X17.  White space around a reply never changes whether it is a tool
    call, nor the call that is read from it. *)
Theorem maybe_parse_tool_call_padded
        (json_loads : string -> decoded) (before text after : string) :
  blank before = true -> blank after = true ->
  maybe_parse_tool_call json_loads (before ++ text ++ after)
  = maybe_parse_tool_call json_loads text.
Proof.
  intros Hb Ha. unfold maybe_parse_tool_call.
  now rewrite strip_padded.
Qed.

(** A no-break space (U+00A0) before the reply, a line feed and an
    ideographic space (U+3000) after it. *)
Lemma maybe_parse_tool_call_padded_witness :
  let before := String "194" (String "160" EmptyString) in
  let after :=
    String "010" (String "227" (String "128" (String "128" EmptyString))) in
  blank before = true /\ blank after = true /\
  maybe_parse_tool_call loads (before ++ reply_call ++ after)
  = maybe_parse_tool_call loads reply_call.
Proof.
  cbv zeta. split; [reflexivity |]. split; [reflexivity |].
  exact (maybe_parse_tool_call_padded
           loads (String "194" (String "160" EmptyString)) reply_call
           (String "010"
                   (String "227" (String "128" (String "128" EmptyString))))
           eq_refl eq_refl).
Defined.

Section Calls.

Variable json_loads : string -> decoded.
Variable json_dumps : value -> string.
Variable SYSTEM_PROMPT : string.
Variable call_llm : list message -> failure + string.
Variables get_availability suggest_times create_event : tool.

Local Abbreviation run :=
  (chat json_loads json_dumps SYSTEM_PROMPT call_llm
        get_availability suggest_times create_event).
Local Abbreviation registry :=
  (TOOL_REGISTRY get_availability suggest_times create_event).

Lemma get_set_other (k k' : string) (v : value) (d : dict) :
  k <> k' -> get k (set k' v d) = get k d.
Proof.
  intros Hne. induction d as [| [k0 v0] d IH]; cbn [set get].
  - destruct (String.eqb_spec k k'); [contradiction | reflexivity].
  - destruct (String.eqb_spec k' k0) as [-> | Hk0]; cbn [get].
    + destruct (String.eqb_spec k k0); [contradiction | reflexivity].
    + destruct (String.eqb k k0); [reflexivity | exact IH].
Qed.

Lemma get_setdefault_other (k k' : string) (v : value) (d : dict) :
  k <> k' -> get k (setdefault k' v d) = get k d.
Proof.
  intros Hne. unfold setdefault.
  destruct (contains k' d); [reflexivity | now apply get_set_other].
Qed.

Lemma get_setdefault_kept (k k' : string) (v w : value) (d : dict) :
  get k d = Some w -> get k (setdefault k' v d) = Some w.
Proof.
  intros H. unfold setdefault. destruct (contains k' d) eqn:E; [exact H |].
  rewrite get_set_other; [exact H |]. intros ->.
  assert (Hc : contains k' d = true)
    by (apply (contains_get k' d); eauto).
  congruence.
Qed.

(** What [chat] does with a detected call, by cases. *)
Lemma dispatch_cases (messages : list message) (user_id : string)
      (obj : dict) :
  contains "args" obj = true ->
  let r := dispatch json_dumps call_llm get_availability suggest_times
                    create_event messages user_id obj in
  snd r = [LLMCall messages] \/
  exists n func args0 a,
    get "tool" obj = Some (JString n) /\
    get "args" obj = Some (JObject args0) /\
    a = setdefault "organizer_user_id" (JString user_id) args0 /\
    registry_get n registry = Some func /\
    ((exists e, func a = inl e /\
                r = (Raised (ToolError (JString n) e),
                     [LLMCall messages; ToolCall n a])) \/
     (exists result,
        func a = inr result /\
        snd r = [LLMCall messages; ToolCall n a;
                 LLMCall (messages ++ [tool_message json_dumps n result])])).
Proof.
  intros (args & Hargs)%contains_get. cbv zeta. unfold dispatch.
  rewrite Hargs.
  destruct (get "tool" obj) as [name |] eqn:Htool; [| now left].
  destruct args as [| | | | | args0]; try now left.
  destruct name as [| | | n | |]; try now left.
  destruct (registry_get n registry) as [func |] eqn:Hreg; [| now left].
  right. exists n, func, args0, (setdefault "organizer_user_id"
                                            (JString user_id) args0).
  repeat split; try reflexivity; try assumption.
  unfold run_tool, tool_message.
  destruct (func _) as [e | result]; [left; eauto |].
  right. exists result. split; [reflexivity |].
  destruct (call_llm _); reflexivity.
Qed.

(** [chat] answers with the first reply and no further call, or hands a
    detected call to the dispatcher. *)
Lemma chat_cases (user_id message : string) :
  snd (run user_id message) = [LLMCall (opening SYSTEM_PROMPT message)] \/
  exists first obj,
    call_llm (opening SYSTEM_PROMPT message) = inr first /\
    maybe_parse_tool_call json_loads first = inr (Some obj) /\
    run user_id message
    = dispatch json_dumps call_llm get_availability suggest_times
               create_event (opening SYSTEM_PROMPT message) user_id obj.
Proof.
  destruct (call_llm (opening SYSTEM_PROMPT message)) as [e | first] eqn:Hllm.
  - left. unfold chat. fold (opening SYSTEM_PROMPT message).
    now rewrite Hllm.
  - destruct (maybe_parse_tool_call json_loads first) as [e | [obj |]]
      eqn:Hobj.
    + left. now rewrite (chat_loads_error _ _ _ _ _ _ _ _ _ _ _ Hllm Hobj).
    + right. exists first, obj. split; [reflexivity |].
      split; [exact Hobj |].
      exact (chat_detected _ _ _ _ _ _ _ _ _ _ _ Hllm Hobj).
    + left. now rewrite (chat_plain _ _ _ _ _ _ _ _ _ _ Hllm Hobj).
Qed.

Lemma chat_calls_cases (user_id message : string) :
  let m := opening SYSTEM_PROMPT message in
  let r := run user_id message in
  snd r = [LLMCall m] \/
  exists first obj n func args0 a,
    call_llm m = inr first /\
    maybe_parse_tool_call json_loads first = inr (Some obj) /\
    get "tool" obj = Some (JString n) /\
    get "args" obj = Some (JObject args0) /\
    a = setdefault "organizer_user_id" (JString user_id) args0 /\
    registry_get n registry = Some func /\
    ((exists e, func a = inl e /\
                r = (Raised (ToolError (JString n) e),
                     [LLMCall m; ToolCall n a])) \/
     (exists result,
        func a = inr result /\
        snd r = [LLMCall m; ToolCall n a;
                 LLMCall (m ++ [tool_message json_dumps n result])])).
Proof.
  cbv zeta. destruct (chat_cases user_id message)
    as [Hplain | (first & obj & Hllm & Hobj & Hrun)]; [now left |].
  rewrite Hrun.
  pose proof (proj1 (maybe_parse_tool_call_some _ _ _) Hobj)
    as (_ & _ & _ & Hargs).
  destruct (dispatch_cases (opening SYSTEM_PROMPT message) user_id obj Hargs)
    as [H | (n & func & args0 & a & H)]; [now left |].
  right. exists first, obj, n, func, args0, a. tauto.
Qed.

End Calls.

(** X18.  One request calls the model at most twice and a tool at most
    once.  Either only the opening conversation is sent; or the tool
    registered under the requested name is called once and raises, and
    the request fails with that tool's name and message without a second
    model call; or the tool returns, and the model is called a second
    time with the opening conversation followed by one assistant message
    that carries the tool's name and result. *)
Theorem chat_calls
        (json_loads : string -> decoded) (dumps : value -> string)
        (prompt : string) (llm : list message -> failure + string)
        (g s c : tool) (user_id message : string) :
  let m := opening prompt message in
  let r := chat json_loads dumps prompt llm g s c user_id message in
  snd r = [LLMCall m] \/
  (exists n func a e,
     registry_get n (TOOL_REGISTRY g s c) = Some func /\ func a = inl e /\
     r = (Raised (ToolError (JString n) e), [LLMCall m; ToolCall n a])) \/
  (exists n func a result,
     registry_get n (TOOL_REGISTRY g s c) = Some func /\
     func a = inr result /\
     snd r = [LLMCall m; ToolCall n a;
              LLMCall (m ++ [tool_message dumps n result])]).
Proof.
  cbv zeta.
  destruct (chat_calls_cases json_loads dumps prompt llm g s c
                             user_id message)
    as [H | (first & obj & n & func & args0 & a & _ & _ & _ & _ & _
               & Hreg & [(e & He & Hr) | (result & Hres & Hr)])].
  - now left.
  - right. left. exists n, func, a, e. auto.
  - right. right. exists n, func, a, result. auto.
Qed.

(** X19.  A tool is called with every argument the model gave, under the
    same key and with the same value; the only key that may be added is
    [organizer_user_id], which holds the request's user id when the
    model gave none. *)
Theorem chat_tool_args
        (json_loads : string -> decoded) (dumps : value -> string)
        (prompt : string) (llm : list message -> failure + string)
        (g s c : tool) (user_id message : string) (n : string) (a : dict) :
  In (ToolCall n a)
     (snd (chat json_loads dumps prompt llm g s c user_id message)) ->
  exists first obj args0,
    llm (opening prompt message) = inr first /\
    maybe_parse_tool_call json_loads first = inr (Some obj) /\
    get "tool" obj = Some (JString n) /\
    get "args" obj = Some (JObject args0) /\
    (forall k v, get k args0 = Some v -> get k a = Some v) /\
    (forall k, k <> "organizer_user_id"%string -> get k a = get k args0) /\
    (contains "organizer_user_id" args0 = false ->
       get "organizer_user_id" a = Some (JString user_id)).
Proof.
  intros Hin.
  destruct (chat_calls_cases json_loads dumps prompt llm g s c
                             user_id message)
    as [H | (first & obj & n' & func & args0 & a' & Hllm & Hobj & Htool
               & Hargs & Ha & _ & Hcall)].
  { rewrite H in Hin. destruct Hin as [Hin | []]. discriminate Hin. }
  assert (Heq : n = n' /\ a = a').
  { destruct Hcall as [(e & _ & Hr) | (result & _ & Hr)];
      rewrite Hr in Hin; cbn [snd In] in Hin;
      repeat (destruct Hin as [Hin | Hin];
              [first [discriminate Hin | now injection Hin as <- <-] |]);
      destruct Hin. }
  destruct Heq as [-> ->]. subst a'.
  exists first, obj, args0. repeat split; try assumption.
  - intros k v. apply get_setdefault_kept.
  - intros k Hk. now apply get_setdefault_other.
  - apply setdefault_absent.
Qed.

Lemma chat_tool_args_witness :
  In (ToolCall "get_availability"
               [("organizer_user_id"%string, JString "alice")])
     (snd (chat loads (fun _ => EmptyString) EmptyString
                (scripted_llm reply_call "Booked.")
                (fun _ => inr JNull) (fun _ => inr JNull)
                (fun _ => inr JNull) "alice" "book a slot")) /\
  exists first obj args0,
    scripted_llm reply_call "Booked." (opening EmptyString "book a slot")
    = inr first /\
    maybe_parse_tool_call loads first = inr (Some obj) /\
    get "tool" obj = Some (JString "get_availability") /\
    get "args" obj = Some (JObject args0) /\
    (forall k v, get k args0 = Some v ->
                 get k [("organizer_user_id"%string, JString "alice")]
                 = Some v) /\
    (forall k, k <> "organizer_user_id"%string ->
               get k [("organizer_user_id"%string, JString "alice")]
               = get k args0) /\
    (contains "organizer_user_id" args0 = false ->
       get "organizer_user_id"
           [("organizer_user_id"%string, JString "alice")]
       = Some (JString "alice")).
Proof.
  assert (Hin : In (ToolCall "get_availability"
                             [("organizer_user_id"%string, JString "alice")])
                   (snd (chat loads (fun _ => EmptyString) EmptyString
                              (scripted_llm reply_call "Booked.")
                              (fun _ => inr JNull) (fun _ => inr JNull)
                              (fun _ => inr JNull) "alice" "book a slot")))
    by (vm_compute; auto).
  split; [exact Hin |].
  exact (chat_tool_args loads (fun _ => EmptyString) EmptyString
                        (scripted_llm reply_call "Booked.")
                        (fun _ => inr JNull) (fun _ => inr JNull)
                        (fun _ => inr JNull) "alice" "book a slot"
                        _ _ Hin).
Defined.

(** X24.  A reply that [chat] returns after a tool was called is never
    the empty string: an empty second reply of the model is replaced by
    [(no response)]. *)
Theorem chat_tool_reply_not_empty
        (json_loads : string -> decoded) (dumps : value -> string)
        (prompt : string) (llm : list message -> failure + string)
        (g s c : tool) (user_id message reply : string)
        (trace : list call) :
  chat json_loads dumps prompt llm g s c user_id message
  = (ChatOut reply, trace) ->
  dispatched trace -> reply <> EmptyString.
Proof. apply chat_reply_after_tool_not_empty. Qed.

Lemma chat_tool_reply_not_empty_witness :
  chat loads (fun _ => EmptyString) EmptyString
       (scripted_llm reply_call EmptyString)
       (fun _ => inr JNull) (fun _ => inr JNull) (fun _ => inr JNull)
       "alice" "book a slot"
  = (ChatOut "(no response)",
     [LLMCall (opening EmptyString "book a slot");
      ToolCall "get_availability"
               [("organizer_user_id"%string, JString "alice")];
      LLMCall (opening EmptyString "book a slot"
               ++ [("assistant"%string, EmptyString)])]) /\
  "(no response)"%string <> EmptyString.
Proof.
  match goal with
  | |- ?a = ?b /\ _ => assert (H : a = b) by (vm_compute; reflexivity)
  end.
  split; [exact H |].
  refine (chat_tool_reply_not_empty _ _ _ _ _ _ _ _ _ _ _ H _).
  exists "get_availability"%string,
         [("organizer_user_id"%string, JString "alice")].
  right. left. reflexivity.
Defined.

(** * The OAuth state store *)

Import google_oauth.

Section StateStore.

Lemma get_set_same (k : string) (v : value) (d : dict) :
  get k (set k v d) = Some v.
Proof.
  induction d as [| [k' v'] d IH]; cbn [set get].
  - now rewrite String.eqb_refl.
  - destruct (String.eqb k k') eqn:E; cbn [get]; rewrite E;
      [reflexivity | exact IH].
Qed.

Lemma get_remove_same (k : string) (d : dict) : get k (remove k d) = None.
Proof.
  induction d as [| [k' v'] d IH]; [reflexivity |]. cbn [remove].
  destruct (String.eqb k k') eqn:E; [exact IH |]. cbn [get].
  now rewrite E.
Qed.

Lemma get_remove_other (k k' : string) (d : dict) :
  k <> k' -> get k (remove k' d) = get k d.
Proof.
  intros Hne. induction d as [| [k0 v0] d IH]; [reflexivity |].
  cbn [remove get]. destruct (String.eqb_spec k' k0) as [-> | Hk0].
  - destruct (String.eqb_spec k k0); [contradiction | exact IH].
  - cbn [get]. destruct (String.eqb k k0); [reflexivity | exact IH].
Qed.

Variable creds : Type.
Variable nonzero : string -> bool.
Variable str_of : value -> string.
Variable configured : bool.
Variable fetch_token : string -> option creds.
Variable resolve : string -> string.
Variable can_write : string -> bool.
Variable to_json : creds -> value.

Lemma entry_user_id_failure (entry : option value) (o : outcome) :
  entry_user_id nonzero entry = inl o ->
  o = UnknownState \/ o = StoreTypeError.
Proof.
  unfold entry_user_id. destruct entry as [e |]; [| intros [= <-]; auto].
  destruct (negb (truthy nonzero e)); [intros [= <-]; auto |].
  destruct e; try (intros [= <-]; auto).
  - destruct (has_infix _ _); intros [= <-]; auto.
  - destruct (existsb _ _); intros [= <-]; auto.
  - destruct (get _ _); [discriminate | intros [= <-]; auto].
Qed.

Local Abbreviation call_back :=
  (callback creds nonzero str_of configured fetch_token resolve can_write
            to_json).
Local Abbreviation store_get := (state_store_get creds resolve to_json).

Lemma state_store_get_written (data : value) (fs : files creds) :
  store_get ((resolve STATE_FILE, Document creds data) :: fs) = data.
Proof.
  unfold state_store_get, load. cbn [read]. now rewrite String.eqb_refl.
Qed.

(** What [callback] read and wrote, by the way it ends. *)
Lemma callback_cases (state code : option string) (fs fs' : files creds)
      (o : outcome) :
  call_back state code fs = (o, fs') ->
  (fs' = fs /\ forall user_id, o <> Connected user_id) \/
  exists st cd store user_id c,
    state = Some st /\ st <> EmptyString /\ code = Some cd /\
    store_get fs = JObject store /\
    entry_user_id nonzero (get st store) = inr user_id /\
    fetch_token cd = Some c /\
    can_write (token_path (format str_of user_id)) = true /\
    let saved :=
      (resolve (token_path (format str_of user_id)), Token creds c) :: fs in
    if can_write STATE_FILE
    then o = Connected user_id /\
         fs' = (resolve STATE_FILE,
                Document creds (JObject (remove st store))) :: saved
    else o = WriteFailed /\ fs' = saved.
Proof.
  unfold callback.
  destruct state as [[| a st] |];
    try (intros [= <- <-]; left; split; [reflexivity | discriminate]).
  destruct (state_store_get creds resolve to_json fs)
    as [| | | | | store] eqn:Hstore;
    try (intros [= <- <-]; left; split; [reflexivity | discriminate]).
  destruct (entry_user_id nonzero (get (String a st) store)) as [e | u]
    eqn:Hentry.
  { intros [= <- <-]. left. split; [reflexivity |]. intros user_id.
    destruct (entry_user_id_failure _ _ Hentry) as [-> | ->]; discriminate. }
  destruct (negb configured);
    [intros [= <- <-]; left; split; [reflexivity | discriminate] |].
  destruct code as [[| b cd] |];
    try (intros [= <- <-]; left; split; [reflexivity | discriminate]).
  destruct (fetch_token (String b cd)) as [c |] eqn:Hfetch;
    [| intros [= <- <-]; left; split; [reflexivity | discriminate]].
  unfold save_creds, state_store_set, write.
  destruct (can_write (token_path (format str_of u))) eqn:Hw;
    [| intros [= <- <-]; left; split; [reflexivity | discriminate]].
  intros H. right. exists (String a st), (String b cd), store, u, c.
  repeat (split; [first [reflexivity | assumption | discriminate] |]).
  cbv zeta. destruct (can_write STATE_FILE); injection H as <- <-; auto.
Qed.

End StateStore.

(** X20.  A state is good for one connection: once [callback] has
    connected a user with it, any later callback with the same state is
    refused as unknown, whatever code comes with it, and writes
    nothing. *)
Theorem callback_state_single_use
        (creds : Type) (nonzero : string -> bool) (str_of : value -> string)
        (configured : bool) (fetch_token : string -> option creds)
        (resolve : string -> string) (can_write : string -> bool)
        (to_json : creds -> value)
        (state code code' : option string) (fs fs' : files creds)
        (user_id : value) :
  callback creds nonzero str_of configured fetch_token resolve can_write
           to_json state code fs = (Connected user_id, fs') ->
  callback creds nonzero str_of configured fetch_token resolve can_write
           to_json state code' fs' = (UnknownState, fs').
Proof.
  intros [[_ H] | (st & cd & store & u & c & -> & Hst & _ & _ & _ & _ & _
                     & H)]%callback_cases.
  { now destruct (H user_id). }
  cbv zeta in H. destruct (can_write STATE_FILE); [| now destruct H].
  destruct H as [_ ->]. unfold callback.
  destruct st as [| a st]; [contradiction |].
  rewrite state_store_get_written. now rewrite get_remove_same.
Qed.

(** X21.  [start] followed by [callback] with the state handed out and a
    code that Google accepts connects the user that started: the state
    is removed from the store, every other pending state is kept, and
    the user's token file holds the credentials, unless that file is the
    state file itself, which then holds the store. *)
Theorem start_then_callback
        (creds : Type) (nonzero : string -> bool) (str_of : value -> string)
        (fetch_token : string -> option creds)
        (resolve : string -> string) (can_write : string -> bool)
        (to_json : creds -> value)
        (auth_url state user_id code : string) (c : creds)
        (fs fs1 : files creds) :
  state <> EmptyString -> code <> EmptyString ->
  fetch_token code = Some c ->
  can_write (token_path user_id) = true ->
  start creds true resolve can_write to_json auth_url state user_id fs
  = (Started auth_url state, fs1) ->
  exists fs2 store2,
    callback creds nonzero str_of true fetch_token resolve can_write to_json
             (Some state) (Some code) fs1
    = (Connected (JString user_id), fs2) /\
    state_store_get creds resolve to_json fs2 = JObject store2 /\
    get state store2 = None /\
    (forall other store,
       other <> state ->
       state_store_get creds resolve to_json fs = JObject store ->
       get other store2 = get other store) /\
    load creds resolve (token_path user_id) fs2
    = Some (if String.eqb (resolve (token_path user_id)) (resolve STATE_FILE)
            then Document creds (JObject store2)
            else Token creds c).
Proof.
  intros Hst Hcode Hfetch Hwrite. unfold start. cbn [negb].
  destruct (state_store_get creds resolve to_json fs)
    as [| | | | | store] eqn:Hstore; try discriminate.
  unfold state_store_set, write.
  destruct (can_write STATE_FILE) eqn:Hws; [| discriminate].
  intros [= <-].
  unfold callback. destruct state as [| a st]; [contradiction |].
  destruct code as [| b cd]; [contradiction |].
  rewrite state_store_get_written, get_set_same.
  cbn [entry_user_id truthy negb get String.eqb Ascii.eqb Bool.eqb].
  cbn [negb]. rewrite Hfetch.
  unfold save_creds, state_store_set, write. cbn [format].
  rewrite Hwrite, Hws.
  eexists. eexists. split; [reflexivity |].
  rewrite state_store_get_written.
  split; [reflexivity |]. split; [apply get_remove_same |]. split.
  - intros other store' Hother [= <-].
    rewrite get_remove_other by exact Hother.
    now apply get_set_other.
  - unfold load. cbn [read].
    destruct (String.eqb (resolve (token_path user_id))
                         (resolve STATE_FILE)); [reflexivity |].
    now rewrite String.eqb_refl.
Qed.

(** X22.  A callback that fails leaves every file as it was, with one
    exception: when the credentials are saved and the state file then
    cannot be opened, the request fails although the token file is
    written. *)
Theorem failed_callback_writes
        (creds : Type) (nonzero : string -> bool) (str_of : value -> string)
        (configured : bool) (fetch_token : string -> option creds)
        (resolve : string -> string) (can_write : string -> bool)
        (to_json : creds -> value)
        (state code : option string) (fs fs' : files creds) (o : outcome) :
  callback creds nonzero str_of configured fetch_token resolve can_write
           to_json state code fs = (o, fs') ->
  (forall user_id, o <> Connected user_id) ->
  fs' = fs \/
  (o = WriteFailed /\ can_write STATE_FILE = false /\
   exists cd user_id c,
     code = Some cd /\ fetch_token cd = Some c /\
     fs' = (resolve (token_path (format str_of user_id)), Token creds c)
           :: fs).
Proof.
  intros [[H _] | (st & cd & store & u & c & _ & _ & -> & _ & _ & Hf & _
                     & H)]%callback_cases Hfail; [now left |].
  cbv zeta in H. destruct (can_write STATE_FILE).
  - destruct H as [-> _]. now destruct (Hfail u).
  - destruct H as [-> ->]. right. repeat split. exists cd, u, c. auto.
Qed.

(** * The join link *)

Section Link.

Variable nonzero : string -> bool.

Lemma first_uri_found (items : list value) (link : value) :
  first_uri nonzero items = Some link ->
  if existsb (has_uri nonzero) items
  then truthy nonzero link = true /\
       exists ep, In (JObject ep) items /\ get "uri" ep = Some link
  else link = JNull.
Proof.
  induction items as [| item items IH]; cbn [first_uri existsb].
  - now intros [= <-].
  - destruct item as [| | | | | ep]; try discriminate.
    cbn [has_uri]. unfold get_or_none.
    destruct (get "uri" ep) as [uri |] eqn:Huri.
    + destruct (truthy nonzero uri) eqn:Htrue; cbn [orb].
      * intros [= <-]. split; [exact Htrue |].
        exists ep. split; [now left | exact Huri].
      * intros H. specialize (IH H).
        destruct (existsb (has_uri nonzero) items); [| exact IH].
        destruct IH as (Ht & ep' & Hin & Hu).
        split; [exact Ht |]. exists ep'. split; [now right | exact Hu].
    + cbn [truthy orb]. intros H. specialize (IH H).
      destruct (existsb (has_uri nonzero) items); [| exact IH].
      destruct IH as (Ht & ep' & Hin & Hu).
      split; [exact Ht |]. exists ep'. split; [now right | exact Hu].
Qed.

End Link.

(** X23.  The join link prefers the entry points: when an entry point of
    the created event carries a true [uri], the link is such a [uri] and
    [hangoutLink] is not looked at; when none does, the link is
    [hangoutLink], or [None] when there is none. *)
Theorem join_link_prefers_entry_points
        (nonzero : string -> bool) (created : dict) (link : value) :
  join_link nonzero created = Some link ->
  if existsb (has_uri nonzero) (offered_entry_points nonzero created)
  then truthy nonzero link = true /\
       exists ep,
         In (JObject ep) (offered_entry_points nonzero created) /\
         get "uri" ep = Some link
  else link = get_or_none "hangoutLink" created.
Proof.
  unfold join_link, offered_entry_points.
  destruct (get_or_none "conferenceData" created) as [| | | | | cd] eqn:Hcd;
    try (destruct (truthy nonzero _); [discriminate |]);
    try (cbn [existsb truthy]; now intros [= <-]).
  destruct (truthy nonzero (JObject cd)) eqn:Hcdt.
  - destruct (entry_points nonzero cd) as [items |]; [| discriminate].
    destruct (first_uri nonzero items) as [found |] eqn:Hfound;
      [| discriminate].
    pose proof (first_uri_found nonzero _ _ Hfound) as H.
    destruct (existsb (has_uri nonzero) items).
    + destruct H as [Ht H]. rewrite Ht. now intros [= <-].
    + subst found. cbn [truthy]. now intros [= <-].
  - cbn [truthy] in *. destruct cd; [| discriminate].
    cbn [entry_points get existsb]. now intros [= <-].
Qed.

Lemma join_link_prefers_entry_points_witness :
  let created :=
    [("id"%string, JString "ev1");
     ("hangoutLink"%string, JString "https://meet/old");
     ("conferenceData"%string,
      JObject [("entryPoints"%string,
                JArray [JObject [("uri"%string, JString EmptyString)];
                        JObject [("uri"%string,
                                  JString "https://meet/new")]])])] in
  join_link plain_nonzero created = Some (JString "https://meet/new") /\
  truthy plain_nonzero (JString "https://meet/new") = true.
Proof.
  cbv zeta.
  match goal with
  | |- ?a = ?b /\ _ => assert (H : a = b) by reflexivity
  end.
  split; [exact H |].
  exact (proj1 (join_link_prefers_entry_points plain_nonzero _ _ H)).
Defined.

(** One pending state [s1] of [alice]; Google accepts every code. *)
Lemma callback_state_single_use_witness :
  let pending :=
    JObject [("s1"%string, JObject [("user_id"%string, JString "alice")])] in
  let fs := [(STATE_FILE, Document string pending)] in
  let fs' := (STATE_FILE, Document string (JObject []))
             :: ("tokens/alice.json"%string, Token string "c1"%string) :: fs in
  callback string plain_nonzero (fun _ => EmptyString) true
           (fun code => Some code) (fun path => path) (fun _ => true)
           JString (Some "s1"%string) (Some "c1"%string) fs
  = (Connected (JString "alice"), fs') /\
  callback string plain_nonzero (fun _ => EmptyString) true
           (fun code => Some code) (fun path => path) (fun _ => true)
           JString (Some "s1"%string) (Some "c2"%string) fs'
  = (UnknownState, fs').
Proof.
  cbv zeta.
  match goal with
  | |- ?a = ?b /\ _ => assert (H : a = b) by reflexivity
  end.
  split; [exact H |].
  exact (callback_state_single_use _ _ _ _ _ _ _ _ _ _ _ _ _ _ H).
Defined.

Lemma start_then_callback_witness :
  let fs := [(STATE_FILE, Document string (JObject []))] in
  let pending :=
    JObject [("s1"%string, JObject [("user_id"%string, JString "alice")])] in
  let fs1 := (STATE_FILE, Document string pending) :: fs in
  ("s1"%string <> EmptyString /\ "c1"%string <> EmptyString /\
   start string true (fun path => path) (fun _ => true) JString
         "https://auth" "s1" "alice" fs
   = (Started "https://auth" "s1", fs1)) /\
  exists fs2 store2,
    callback string plain_nonzero (fun _ => EmptyString) true
             (fun code => Some code) (fun path => path) (fun _ => true)
             JString (Some "s1"%string) (Some "c1"%string) fs1
    = (Connected (JString "alice"), fs2) /\
    state_store_get string (fun path => path) JString fs2
    = JObject store2 /\
    get "s1" store2 = None /\
    (forall other store,
       other <> "s1"%string ->
       state_store_get string (fun path => path) JString fs
       = JObject store ->
       get other store2 = get other store) /\
    load string (fun path => path) (token_path "alice") fs2
    = Some (if String.eqb (token_path "alice") STATE_FILE
            then Document string (JObject store2)
            else Token string "c1"%string).
Proof.
  cbv zeta.
  assert (H1 : "s1"%string <> EmptyString) by discriminate.
  assert (H2 : "c1"%string <> EmptyString) by discriminate.
  match goal with
  | |- (_ /\ _ /\ ?a = ?b) /\ _ => assert (H3 : a = b) by reflexivity
  end.
  split; [repeat split; assumption |].
  exact (start_then_callback
           string plain_nonzero (fun _ => EmptyString)
           (fun code => Some code) (fun path => path) (fun _ => true)
           JString
           "https://auth"%string "s1"%string "alice"%string "c1"%string
           "c1"%string _ _ H1 H2 eq_refl eq_refl H3).
Defined.

(** A callback for [alice] while the state file cannot be opened. *)
Lemma failed_callback_writes_witness :
  let pending :=
    JObject [("s1"%string, JObject [("user_id"%string, JString "alice")])] in
  let fs := [(STATE_FILE, Document string pending)] in
  let fs' := ("tokens/alice.json"%string, Token string "c1"%string) :: fs in
  let writable := fun path => negb (String.eqb path STATE_FILE) in
  callback string plain_nonzero (fun _ => EmptyString) true
           (fun code => Some code) (fun path => path) writable
           JString (Some "s1"%string) (Some "c1"%string) fs
  = (WriteFailed, fs') /\
  (forall user_id, WriteFailed <> Connected user_id) /\
  (fs' = fs \/
   (WriteFailed = WriteFailed /\ writable STATE_FILE = false /\
    exists cd user_id c,
      Some "c1"%string = Some cd /\ Some cd = Some c /\
      fs' = (token_path (format (fun _ => EmptyString) user_id),
             Token string c) :: fs)).
Proof.
  cbv zeta.
  match goal with
  | |- ?a = ?b /\ _ => assert (H : a = b) by reflexivity
  end.
  assert (Hf : forall user_id, WriteFailed <> Connected user_id)
    by (intros u; discriminate).
  split; [exact H |]. split; [exact Hf |].
  exact (failed_callback_writes _ _ _ _ _ _ _ _ _ _ _ _ _ H Hf).
Defined.
